(** * Employee directory server: query pipeline, access gate and store

    A shallow embedding of [src/server/index.js]: the in-memory employee
    store, the [employees] query (filter, sort, paginate), the role gate
    [requireRole], and the mutations [login], [addEmployee] and
    [updateEmployee].

    Conventions.
    - A JavaScript string is a [string]; [===] on strings is [String.eqb]
      and [<] on strings is the lexicographic order on code units,
      [String.ltb].
    - A GraphQL [Int] is a [Z].
    - A nullable or omitted GraphQL argument is an [option]: [None] stands
      for both [undefined] and [null] wherever the code treats them alike.
    - A thrown [Error] is a value of [Result]; code that reads or writes
      the module-level [employees] array runs in the state monad [M]. *)

From Stdlib Require Import ZArith String Ascii List Bool Lia.
From Stdlib Require Import Permutation Sorted DecimalString DecimalNat.
From stdpp Require Import base list.

Import ListNotations.
Local Open Scope string_scope.
Local Open Scope Z_scope.

(** ** Runtime library *)

Module JS.

(** [`${n}`] for a non-negative integer [n] below 1e21: its decimal digits. *)
Definition toString (n : nat) : string :=
  NilEmpty.string_of_uint (Nat.to_uint n).

(** [s.includes(q)]: [q] occurs in [s] as a contiguous run of code units. *)
Fixpoint includes (s q : string) : bool :=
  String.prefix q s ||
  match s with
  | EmptyString => false
  | String _ s' => includes s' q
  end.

(** [list.slice(start, end)] with relative (negative) indices and clamping. *)
Definition slice {A} (l : list A) (start end_ : Z) : list A :=
  let len := Z.of_nat (length l) in
  let k := if start <? 0 then Z.max (len + start) 0 else Z.min start len in
  let final := if end_ <? 0 then Z.max (len + end_) 0 else Z.min end_ len in
  take (Z.to_nat (Z.max (final - k) 0)) (drop (Z.to_nat k) l).

(** [list.includes(x)] on an array of strings. *)
Definition arrayIncludes (l : list string) (x : string) : bool :=
  existsb (String.eqb x) l.

(** A string in a condition: every string but the empty one is truthy. *)
Definition truthy (s : string) : bool := negb (s =? "")%string.

(** [list.find(p)]. *)
Definition find {A} (p : A -> bool) (l : list A) : option A := List.find p l.

(** [list.findIndex(p)]: the first index whose element satisfies [p],
    or [-1]. *)
Fixpoint findIndexFrom {A} (p : A -> bool) (l : list A) (i : Z) : Z :=
  match l with
  | [] => -1
  | x :: l' => if p x then i else findIndexFrom p l' (i + 1)
  end.

Definition findIndex {A} (p : A -> bool) (l : list A) : Z :=
  findIndexFrom p l 0.

(** [[...list].sort(compareFn)]. ECMAScript requires the sort to be stable;
    for a consistent comparator the result is then determined (see
    [sort_unique]), and insertion from the right computes it: an element is
    moved past those that [compareFn] puts strictly before it. *)
Fixpoint insert {A} (compareFn : A -> A -> Z) (x : A) (l : list A) : list A :=
  match l with
  | [] => [x]
  | y :: l' =>
      if 0 <? compareFn x y then y :: insert compareFn x l' else x :: y :: l'
  end.

Fixpoint sort {A} (compareFn : A -> A -> Z) (l : list A) : list A :=
  match l with
  | [] => []
  | x :: l' => insert compareFn x (sort compareFn l')
  end.

(** [s.startsWith(prefix)]. *)
Definition startsWith (s prefix : string) : bool := String.prefix prefix s.

(** [s] without its first [n] code units. *)
Fixpoint skip (n : nat) (s : string) : string :=
  match n, s with
  | O, _ => s
  | S n', String _ s' => skip n' s'
  | S _, EmptyString => EmptyString
  end.

(** [s.replace(pattern, replacement)] for a string [pattern] and a
    [replacement] without [$]: the first occurrence of [pattern] gives way
    to [replacement]. *)
Fixpoint replace (s pattern replacement : string) : string :=
  if String.prefix pattern s
  then (replacement ++ skip (String.length pattern) s)%string
  else
    match s with
    | EmptyString => EmptyString
    | String c s' => String c (replace s' pattern replacement)
    end.

End JS.

(** ** Data model *)

Module User.
Record t := mk { id : string; username : string; password : string; role : string }.
End User.

(** The public projection of a user, also the payload of a token and the
    [user] of a request context. *)
Module UserView.
Record t := mk { id : string; username : string; role : string }.
End UserView.

Module Employee.
(** [flagged] is [None] when the stored value is [null]. *)
Record t := mk {
    id : string;
    name : string;
    age : Z;
    className : string;
    subjects : list string;
    attendance : Z;
    flagged : option bool;
    createdAt : string
  }.
End Employee.

(** A nullable input field without a default: omitted, [null], or a value. *)
Inductive InputField (A : Type) : Type :=
  | omitted
  | null
  | given (a : A).
Arguments omitted {A}.
Arguments null {A}.
Arguments given {A} a.

Module EmployeeInput.
Record t := mk {
    name : string;
    age : Z;
    className : string;
    subjects : list string;
    attendance : Z;
    flagged : InputField bool
  }.
End EmployeeInput.

Module EmployeeFilter.
Record t := mk {
    nameContains : option string;
    className : option string;
    minAttendance : option Z
  }.
End EmployeeFilter.

Inductive EmployeeSortField := NAME | AGE | ATTENDANCE | CREATED_AT.
Inductive SortOrder := ASC | DESC.

Module EmployeeSort.
Record t := mk { field : EmployeeSortField; order : SortOrder }.
End EmployeeSort.

Module EmployeePage.
Record t := mk {
    items : list Employee.t;
    totalCount : Z;
    page : Z;
    pageSize : Z
  }.
End EmployeePage.

Module AuthPayload.
Record t := mk { token : string; user : UserView.t }.
End AuthPayload.

Module Context.
Record t := mk { user : option UserView.t }.
End Context.

(** The four errors the resolvers throw. *)
Inductive Error := Unauthenticated | Forbidden | InvalidCredentials | NotFound.

Definition message (e : Error) : string :=
  match e with
  | Unauthenticated => "Not authenticated"
  | Forbidden => "Not authorized"
  | InvalidCredentials => "Invalid credentials"
  | NotFound => "Employee not found"
  end.

Inductive Result (A : Type) : Type :=
  | Ok (a : A)
  | Err (e : Error).
Arguments Ok {A} a.
Arguments Err {A} e.

(** ** In-memory data *)

Definition users : list User.t :=
  [ User.mk "1" "admin" "admin123" "ADMIN";
    User.mk "2" "john" "john123" "EMPLOYEE" ].

Definition alice : Employee.t :=
  Employee.mk "e1" "Alice Johnson" 29 "Class A" ["Math"; "Science"] 96
    (Some false) "2024-01-12T00:00:00.000Z".

Definition bob : Employee.t :=
  Employee.mk "e2" "Bob Singh" 34 "Class B" ["English"; "History"] 89
    (Some true) "2024-03-01T00:00:00.000Z".

Definition clara : Employee.t :=
  Employee.mk "e3" "Clara Lee" 26 "Class A" ["Biology"; "Chemistry"] 92
    (Some false) "2024-05-21T00:00:00.000Z".

(** The initial value of the [employees] array. *)
Definition seed : list Employee.t := [alice; bob; clara].

(** ** Host environment

    What the server takes from its runtime: [String.prototype.toLowerCase],
    the token signer [jwt.sign(payload, secret, {expiresIn})] (which also
    reads the clock), and [process.env.JWT_SECRET]. *)

Class Host := {
  toLowerCase : string -> string;
  jwt_sign : UserView.t -> string -> string -> Z -> string;
  env_JWT_SECRET : option string
}.

(** [process.env.JWT_SECRET || 'supersecret-key'] *)
Definition JWT_SECRET `{Host} : string :=
  match env_JWT_SECRET with
  | Some s => if JS.truthy s then s else "supersecret-key"
  | None => "supersecret-key"
  end.

(** ** The store monad

    A resolver reads and writes the [employees] array and may throw; what
    it wrote before throwing stays written. *)

Definition M (A : Type) : Type :=
  list Employee.t -> Result A * list Employee.t.

Definition ret {A} (a : A) : M A := fun s => (Ok a, s).

Definition throw {A} (e : Error) : M A := fun s => (Err e, s).

Definition bind {A B} (m : M A) (k : A -> M B) : M B :=
  fun s =>
    match m s with
    | (Ok a, s') => k a s'
    | (Err e, s') => (Err e, s')
    end.

Definition get : M (list Employee.t) := fun s => (Ok s, s).

Definition put (s : list Employee.t) : M unit := fun _ => (Ok tt, s).

Notation "x <- m ;; k" := (bind m (fun x => k))
  (at level 100, m at next level, right associativity).
Notation "m ;;; k" := (bind m (fun _ => k))
  (at level 100, right associativity).

(** ** Helpers *)

(** [requireAuth] hands back the user it found, which its caller then
    reads as [context.user]. *)
Definition requireAuth (context : Context.t) : M UserView.t :=
  match Context.user context with
  | None => throw Unauthenticated
  | Some user => ret user
  end.

Definition requireRole (context : Context.t) (roles : list string) : M unit :=
  user <- requireAuth context ;;
  if negb (JS.arrayIncludes roles (UserView.role user))
  then throw Forbidden
  else ret tt.

(** The comparison at the end of the [sort] callback, on keys [av], [bv]
    whose [<] is [lt]. *)
Definition compareKeys {K} (lt : K -> K -> bool) (av bv : K) (dir : Z) : Z :=
  if lt av bv then -1 * dir
  else if lt bv av then 1 * dir
  else 0.

Definition dirOf (order : SortOrder) : Z :=
  match order with DESC => -1 | ASC => 1 end.

(** The callback given to [sort]. The [switch] has no [default] case here:
    [field] ranges over the four values of the schema's enum. *)
Definition compareEmployees `{Host} (sort : EmployeeSort.t) (a b : Employee.t) : Z :=
  let dir := dirOf (EmployeeSort.order sort) in
  match EmployeeSort.field sort with
  | NAME =>
      compareKeys String.ltb
        (toLowerCase (Employee.name a)) (toLowerCase (Employee.name b)) dir
  | AGE => compareKeys Z.ltb (Employee.age a) (Employee.age b) dir
  | ATTENDANCE =>
      compareKeys Z.ltb (Employee.attendance a) (Employee.attendance b) dir
  | CREATED_AT =>
      compareKeys String.ltb (Employee.createdAt a) (Employee.createdAt b) dir
  end.

Definition sortEmployees `{Host} (lst : list Employee.t)
    (sort : option EmployeeSort.t) : list Employee.t :=
  match sort with
  | None => lst
  | Some sort => JS.sort (compareEmployees sort) lst
  end.

Definition filterEmployees `{Host} (lst : list Employee.t)
    (filter : option EmployeeFilter.t) : list Employee.t :=
  match filter with
  | None => lst
  | Some filter =>
      let result := lst in
      let result :=
        match EmployeeFilter.nameContains filter with
        | Some nameContains =>
            if JS.truthy nameContains then
              let q := toLowerCase nameContains in
              List.filter
                (fun e => JS.includes (toLowerCase (Employee.name e)) q) result
            else result
        | None => result
        end in
      let result :=
        match EmployeeFilter.className filter with
        | Some className =>
            if JS.truthy className then
              List.filter
                (fun e => (Employee.className e =? className)%string) result
            else result
        | None => result
        end in
      let result :=
        match EmployeeFilter.minAttendance filter with
        | Some minAttendance =>
            List.filter (fun e => Employee.attendance e >=? minAttendance) result
        | None => result
        end in
      result
  end.

(** ** Resolvers *)

Module Query.

(** [user || null] *)
Definition me (context : Context.t) : M (option UserView.t) :=
  ret (Context.user context).

(** [page] and [pageSize] are [None] when the argument is [undefined];
    an explicit [null] for either has no value here.
    The offsets are computed on integers: a product of two GraphQL [Int]s
    that a double cannot hold exactly lies far past the end of any array,
    where the slice is empty either way. *)
Definition employees `{Host} (filter : option EmployeeFilter.t)
    (page pageSize : option Z) (sort : option EmployeeSort.t)
    : M EmployeePage.t :=
  let page := default 1 page in
  let pageSize := default 10 pageSize in
  employees <- get ;;
  let lst := filterEmployees employees filter in
  let lst := sortEmployees lst sort in
  let totalCount := Z.of_nat (length lst) in
  let start := (page - 1) * pageSize in
  let end_ := start + pageSize in
  let items := JS.slice lst start end_ in
  ret (EmployeePage.mk items totalCount page pageSize).

Definition employee (id : string) : M (option Employee.t) :=
  employees <- get ;;
  ret (JS.find (fun e => (Employee.id e =? id)%string) employees).

End Query.

Module Mutation.

Definition login `{Host} (username password : string) (clock : Z)
    : M AuthPayload.t :=
  match
    JS.find
      (fun u => (User.username u =? username)%string
                && (User.password u =? password)%string)
      users
  with
  | None => throw InvalidCredentials
  | Some user =>
      let token :=
        jwt_sign (UserView.mk (User.id user) (User.username user) (User.role user))
          JWT_SECRET "2h" clock in
      ret (AuthPayload.mk token
             (UserView.mk (User.id user) (User.username user) (User.role user)))
  end.

(** [now] is [new Date().toISOString()] at the time of the call. *)
Definition addEmployee (input : EmployeeInput.t) (context : Context.t)
    (now : string) : M Employee.t :=
  requireRole context ["ADMIN"] ;;;
  employees <- get ;;
  let id := ("e" ++ JS.toString (length employees + 1))%string in
  let employee :=
    Employee.mk id
      (EmployeeInput.name input)
      (EmployeeInput.age input)
      (EmployeeInput.className input)
      (EmployeeInput.subjects input)
      (EmployeeInput.attendance input)
      (match EmployeeInput.flagged input with
       | given b => Some b
       | _ => Some false
       end)
      now in
  put (employees ++ [employee]) ;;;
  ret employee.

(** [{...employee, ...input}]: every key that [input] carries overrides. *)
Definition merge (employee : Employee.t) (input : EmployeeInput.t) : Employee.t :=
  Employee.mk
    (Employee.id employee)
    (EmployeeInput.name input)
    (EmployeeInput.age input)
    (EmployeeInput.className input)
    (EmployeeInput.subjects input)
    (EmployeeInput.attendance input)
    (match EmployeeInput.flagged input with
     | omitted => Employee.flagged employee
     | null => None
     | given b => Some b
     end)
    (Employee.createdAt employee).

Definition updateEmployee (id : string) (input : EmployeeInput.t)
    (context : Context.t) : M Employee.t :=
  requireRole context ["ADMIN"] ;;;
  employees <- get ;;
  let idx := JS.findIndex (fun e => (Employee.id e =? id)%string) employees in
  if idx =? -1 then throw NotFound
  else
    match employees !! Z.to_nat idx with
    | Some old =>
        put (<[Z.to_nat idx := merge old input]> employees) ;;;
        employees <- get ;;
        match employees !! Z.to_nat idx with
        | Some e => ret e
        | None => throw NotFound
        end
    | None => throw NotFound
    end.

End Mutation.

(** ** Context (Auth) *)

(** [jwt.verify(token, secret)] at a given time: the payload of the token,
    or [None] when it throws. *)
Class JwtVerify := {
  jwt_verify : string -> string -> Z -> option UserView.t
}.

(** [authorization] is [req.headers.authorization]. An exception of
    [jwt.verify] is caught and leaves [user] at [null]. *)
Definition createContext `{Host} `{JwtVerify} (authorization : option string)
    (clock : Z) : Context.t :=
  let auth :=
    match authorization with
    | Some a => if JS.truthy a then a else ""
    | None => ""
    end in
  let user :=
    if JS.startsWith auth "Bearer " then
      let token := JS.replace auth "Bearer " "" in
      jwt_verify token JWT_SECRET clock
    else None in
  Context.mk user.

(** ** The client *)

Module Client.

(** The [Authorization] header of [graphQLRequest], if it sends one. *)
Definition authorization (token : option string) : option string :=
  match token with
  | Some token =>
      if JS.truthy token then Some ("Bearer " ++ token)%string else None
  | None => None
  end.

(** [emp.subjects?.[0] || "-"] *)
Definition primarySubject (emp : Employee.t) : string :=
  match Employee.subjects emp with
  | subject :: _ => if JS.truthy subject then subject else "-"
  | [] => "-"
  end.

Definition band (emp : Employee.t) : string :=
  if Employee.attendance emp >=? 90 then "Excellent"
  else if Employee.attendance emp >=? 80 then "Good"
  else "Needs Attention".

Definition roleLabel (emp : Employee.t) : string :=
  if Employee.attendance emp >=? 90 then "Scholar" else "Student".

End Client.

(** ** Sequences of mutations *)

Inductive Op :=
  | opAdd (input : EmployeeInput.t) (context : Context.t) (now : string)
  | opUpdate (id : string) (input : EmployeeInput.t) (context : Context.t).

(** The store after one mutation, whether it returned or threw. *)
Definition step (employees : list Employee.t) (op : Op) : list Employee.t :=
  match op with
  | opAdd input context now =>
      snd (Mutation.addEmployee input context now employees)
  | opUpdate id input context =>
      snd (Mutation.updateEmployee id input context employees)
  end.

Definition run (ops : list Op) (employees : list Employee.t) : list Employee.t :=
  fold_left step ops employees.

(** ** Vocabulary of the properties *)

(** A comparator is consistent when the signs it returns come from a total
    preorder. *)
Definition Consistent {A} (cmp : A -> A -> Z) : Prop :=
  (forall a b, 0 < cmp a b <-> cmp b a < 0) /\
  (forall a b c, cmp a b <= 0 -> cmp b c <= 0 -> cmp a c <= 0).

Definition rank (c : comparison) : Z :=
  match c with Lt => -1 | Eq => 0 | Gt => 1 end.

(** The order on sort keys, as the specification words it: names without
    regard to case, ages and attendances as numbers, creation timestamps as
    strings. *)
Definition keyCompare `{Host} (field : EmployeeSortField) (a b : Employee.t)
    : comparison :=
  match field with
  | NAME => String.compare (toLowerCase (Employee.name a)) (toLowerCase (Employee.name b))
  | AGE => Z.compare (Employee.age a) (Employee.age b)
  | ATTENDANCE => Z.compare (Employee.attendance a) (Employee.attendance b)
  | CREATED_AT => String.compare (Employee.createdAt a) (Employee.createdAt b)
  end.

Definition sameKey `{Host} (field : EmployeeSortField) (a b : Employee.t) : bool :=
  match keyCompare field a b with Eq => true | _ => false end.

(** [a] may stand before [b] in a list sorted by [field] in [order]. *)
Definition inOrder `{Host} (sort : EmployeeSort.t) (a b : Employee.t) : Prop :=
  match EmployeeSort.order sort with
  | ASC => keyCompare (EmployeeSort.field sort) a b <> Gt
  | DESC => keyCompare (EmployeeSort.field sort) a b <> Lt
  end.

(** Filtering by presence, as the specification words it: every predicate
    field that is present constrains, whatever its value. *)
Definition passesPresent `{Host} (filter : EmployeeFilter.t) (e : Employee.t) : bool :=
  match EmployeeFilter.nameContains filter with
  | Some q => JS.includes (toLowerCase (Employee.name e)) (toLowerCase q)
  | None => true
  end
  && match EmployeeFilter.className filter with
     | Some c => (Employee.className e =? c)%string
     | None => true
     end
  && match EmployeeFilter.minAttendance filter with
     | Some m => Employee.attendance e >=? m
     | None => true
     end.

(** Filtering as the code does it: a string predicate is in force only when
    it is supplied and not empty, the threshold whenever it is supplied. *)
Definition passesInForce `{Host} (filter : EmployeeFilter.t) (e : Employee.t) : bool :=
  match EmployeeFilter.nameContains filter with
  | Some q =>
      if (q =? "")%string then true
      else JS.includes (toLowerCase (Employee.name e)) (toLowerCase q)
  | None => true
  end
  && match EmployeeFilter.className filter with
     | Some c =>
         if (c =? "")%string then true else (Employee.className e =? c)%string
     | None => true
     end
  && match EmployeeFilter.minAttendance filter with
     | Some m => Employee.attendance e >=? m
     | None => true
     end.

(** The ids of a store are [e1], [e2], ... in the order of the records. *)
Definition numbered (employees : list Employee.t) : Prop :=
  forall (i : nat) e,
    employees !! i = Some e ->
    Employee.id e = ("e" ++ JS.toString (i + 1))%string.

(** The items of one page of the [employees] query. *)
Definition pageItems `{Host} (filter : option EmployeeFilter.t)
    (sort : option EmployeeSort.t) (pageSize : Z)
    (employees : list Employee.t) (page : Z) : list Employee.t :=
  match fst (Query.employees filter (Some page) (Some pageSize) sort employees) with
  | Ok result => EmployeePage.items result
  | Err _ => []
  end.

(** The mutation does not pass [null] for [flagged]. *)
Definition flagNotNull (op : Op) : Prop :=
  match op with
  | opAdd input _ _ => True
  | opUpdate _ input _ => EmployeeInput.flagged input <> null
  end.

(** ** A host to run examples on: lower-casing of ASCII letters, a stand-in
    signer, no [JWT_SECRET] in the environment. *)

Definition lowerChar (c : ascii) : ascii :=
  let n := N_of_ascii c in
  if ((65 <=? n) && (n <=? 90))%N then ascii_of_N (n + 32) else c.

Fixpoint asciiLowerCase (s : string) : string :=
  match s with
  | EmptyString => EmptyString
  | String c s' => String (lowerChar c) (asciiLowerCase s')
  end.

Definition sampleHost : Host :=
  {| toLowerCase := asciiLowerCase;
     jwt_sign := fun payload secret expiresIn clock =>
       (UserView.username payload ++ "." ++ secret ++ "." ++ expiresIn)%string;
     env_JWT_SECRET := None |}.

(** A verifier that accepts the tokens [sampleHost] signs for the two
    users, at any time. *)
Definition sampleVerify : JwtVerify :=
  {| jwt_verify := fun token secret clock =>
       if (token =? "admin." ++ secret ++ ".2h")%string
       then Some (UserView.mk "1" "admin" "ADMIN")
       else if (token =? "john." ++ secret ++ ".2h")%string
       then Some (UserView.mk "2" "john" "EMPLOYEE")
       else None |}.

Definition admin : Context.t :=
  Context.mk (Some (UserView.mk "1" "admin" "ADMIN")).

Definition john : Context.t :=
  Context.mk (Some (UserView.mk "2" "john" "EMPLOYEE")).

Definition anonymous : Context.t := Context.mk None.

Definition danInput : EmployeeInput.t :=
  EmployeeInput.mk "Dan Wu" 41 "Class C" ["Art"] 77 omitted.

Definition bobInput : EmployeeInput.t :=
  EmployeeInput.mk "Bob S. Singh" 35 "Class C" ["Art"] 90 null.

(** [bob] after [updateEmployee "e2" bobInput]. *)
Definition bobUpdated : Employee.t :=
  Employee.mk "e2" "Bob S. Singh" 35 "Class C" ["Art"] 90 None
    "2024-03-01T00:00:00.000Z".

(** * Properties *)

(** ** The scenario of the seed store *)

(** C1 as stated fails: descending attendance puts Alice (96) before
    Clara (92), so the items are not [Clara; Alice]. *)
Lemma employees_seed_not_clara_alice :
  @Query.employees sampleHost
    (Some (EmployeeFilter.mk None (Some "Class A") None))
    (Some 1) (Some 10)
    (Some (EmployeeSort.mk ATTENDANCE DESC))
    seed
  <> (Ok (EmployeePage.mk [clara; alice] 2 1 10), seed).
Proof. vm_compute. discriminate. Qed.

(** C1, amended. On the seed store [Alice (96, Class A); Bob (89, Class B);
    Clara (92, Class A)], the [employees] query with filter
    [{className: "Class A"}], sort [{field: ATTENDANCE, order: DESC}],
    page 1 and pageSize 10 returns the items [Alice; Clara] in that order,
    highest attendance first, and totalCount 2; the store is as it was. *)
Theorem employees_seed_classA_by_attendance_desc `{Host} :
  Query.employees
    (Some (EmployeeFilter.mk None (Some "Class A") None))
    (Some 1) (Some 10)
    (Some (EmployeeSort.mk ATTENDANCE DESC))
    seed
  = (Ok (EmployeePage.mk [alice; clara] 2 1 10), seed).
Proof. reflexivity. Qed.

(** ** The runtime library *)

Example toString_12 : JS.toString 12 = "12".
Proof. reflexivity. Qed.

Example includes_inside : JS.includes "alice johnson" "john" = true.
Proof. reflexivity. Qed.

Example includes_empty : JS.includes "alice" "" = true.
Proof. reflexivity. Qed.

Example includes_absent : JS.includes "alice" "bob" = false.
Proof. reflexivity. Qed.

Example slice_inside : JS.slice [10; 20; 30] 2 4 = [30].
Proof. reflexivity. Qed.

Example slice_past_the_end : JS.slice [10; 20; 30] 4 6 = [].
Proof. reflexivity. Qed.

Example slice_from_the_end : JS.slice [10; 20; 30] (-2) 3 = [20; 30].
Proof. reflexivity. Qed.

Example findIndex_found : JS.findIndex (Z.eqb 20) [10; 20; 30; 20] = 1.
Proof. reflexivity. Qed.

Example findIndex_missing : JS.findIndex (Z.eqb 40) [10; 20; 30] = -1.
Proof. reflexivity. Qed.

Example sort_keeps_ties :
  JS.sort (fun a b => fst a - fst b) [(2, "a"); (1, "b"); (2, "c"); (1, "d")]
  = [(1, "b"); (1, "d"); (2, "a"); (2, "c")].
Proof. reflexivity. Qed.

Example asciiLowerCase_name : asciiLowerCase "Alice Johnson" = "alice johnson".
Proof. reflexivity. Qed.


Section SortFacts.
Context {A : Type} (cmp : A -> A -> Z).

Lemma insert_perm x l : Permutation (JS.insert cmp x l) (x :: l).
Proof.
  induction l as [|y l IH]; simpl; [reflexivity|].
  destruct (0 <? cmp x y); [|reflexivity].
  rewrite IH. apply perm_swap.
Qed.

Lemma sort_perm l : Permutation (JS.sort cmp l) l.
Proof.
  induction l as [|x l IH]; simpl; [constructor|].
  rewrite insert_perm. now constructor.
Qed.

Lemma sort_length l : length (JS.sort cmp l) = length l.
Proof. apply Permutation_length, sort_perm. Qed.

Hypothesis cmp_consistent : Consistent cmp.

Lemma cmp_refl a : cmp a a = 0.
Proof. destruct cmp_consistent as [Hs _]. destruct (Hs a a). lia. Qed.

Lemma cmp_flip_le a b : 0 < cmp a b -> cmp b a <= 0.
Proof. destruct cmp_consistent as [Hs _]. destruct (Hs a b). lia. Qed.

Lemma cmp_zero_sym a b : cmp a b = 0 -> cmp b a = 0.
Proof.
  destruct cmp_consistent as [Hs _]. intros Hab.
  destruct (Hs a b), (Hs b a). lia.
Qed.

Lemma cmp_zero_trans a b c : cmp a b = 0 -> cmp a c = 0 -> cmp b c = 0.
Proof.
  destruct cmp_consistent as [Hs Ht]. intros Hab Hac.
  pose proof (cmp_zero_sym _ _ Hab) as Hba.
  pose proof (cmp_zero_sym _ _ Hac) as Hca.
  assert (cmp b c <= 0) by (apply (Ht b a c); lia).
  assert (cmp c b <= 0) by (apply (Ht c a b); lia).
  destruct (Hs c b). lia.
Qed.

Lemma insert_sorted x l :
  StronglySorted (fun a b => cmp a b <= 0) l ->
  StronglySorted (fun a b => cmp a b <= 0) (JS.insert cmp x l).
Proof.
  destruct cmp_consistent as [_ Ht].
  induction 1 as [|y l Hl IH Hy]; simpl.
  - repeat constructor.
  - destruct (0 <? cmp x y) eqn:Hxy.
    + apply Z.ltb_lt in Hxy. constructor; [exact IH|].
      apply (Permutation_Forall (Permutation_sym (insert_perm x l))).
      constructor; [now apply cmp_flip_le | exact Hy].
    + apply Z.ltb_ge in Hxy. constructor; [now constructor|].
      constructor; [exact Hxy|].
      eapply List.Forall_impl; [|exact Hy]. intros z Hz. now apply (Ht x y z).
Qed.

Lemma sort_sorted l : StronglySorted (fun a b => cmp a b <= 0) (JS.sort cmp l).
Proof.
  induction l as [|x l IH]; simpl; [constructor|]. now apply insert_sorted.
Qed.

Lemma insert_stable a x l :
  List.filter (fun b => cmp a b =? 0) (JS.insert cmp x l)
  = List.filter (fun b => cmp a b =? 0) (x :: l).
Proof.
  induction l as [|y l IH]; [reflexivity|].
  cbn [JS.insert]. destruct (0 <? cmp x y) eqn:Hxy; [|reflexivity].
  apply Z.ltb_lt in Hxy.
  cbn [List.filter] in *. rewrite IH.
  destruct (cmp a x =? 0) eqn:Hax, (cmp a y =? 0) eqn:Hay; try reflexivity.
  apply Z.eqb_eq in Hax, Hay.
  pose proof (cmp_zero_trans _ _ _ Hax Hay). lia.
Qed.

Lemma sort_stable a l :
  List.filter (fun b => cmp a b =? 0) (JS.sort cmp l)
  = List.filter (fun b => cmp a b =? 0) l.
Proof.
  induction l as [|x l IH]; [reflexivity|].
  cbn [JS.sort]. rewrite insert_stable. cbn [List.filter]. now rewrite IH.
Qed.

(** Two sorted lists with the same elements in the same order within each
    class of equal keys are the same list: the contract of a stable sort
    leaves no choice. *)
Lemma sorted_stable_eq l1 l2 :
  StronglySorted (fun a b => cmp a b <= 0) l1 ->
  StronglySorted (fun a b => cmp a b <= 0) l2 ->
  (forall a, List.filter (fun b => cmp a b =? 0) l1
             = List.filter (fun b => cmp a b =? 0) l2) ->
  l1 = l2.
Proof.
  destruct cmp_consistent as [Hs _].
  intros H1. revert l2. induction H1 as [|x l1 Hl1 IH Hx]; intros l2 H2 Hcls.
  - destruct l2 as [|y l2]; [reflexivity|].
    specialize (Hcls y). cbn in Hcls. rewrite cmp_refl in Hcls. discriminate.
  - destruct H2 as [|y l2 Hl2 Hy].
    { specialize (Hcls x). cbn in Hcls. rewrite cmp_refl in Hcls. discriminate. }
    assert (x = y) as <-.
    { destruct (cmp x y =? 0) eqn:Hxy.
      - specialize (Hcls x). cbn in Hcls. rewrite cmp_refl, Hxy in Hcls.
        now injection Hcls.
      - exfalso. apply Z.eqb_neq in Hxy.
        assert (cmp y x <> 0) as Hyx
          by (intros E; apply Hxy; now apply cmp_zero_sym).
        pose proof (Hcls x) as Cx. pose proof (Hcls y) as Cy.
        cbn in Cx, Cy.
        rewrite cmp_refl in Cx, Cy.
        apply Z.eqb_neq in Hxy, Hyx. rewrite Hxy in Cx. rewrite Hyx in Cy.
        apply Z.eqb_neq in Hxy, Hyx.
        assert (In x l2) as Hin2.
        { apply (proj1 (filter_In (fun b => cmp x b =? 0) x l2)).
          rewrite <- Cx. now left. }
        assert (In y l1) as Hin1.
        { apply (proj1 (filter_In (fun b => cmp y b =? 0) y l1)).
          rewrite Cy. now left. }
        rewrite List.Forall_forall in Hx, Hy.
        specialize (Hx _ Hin1). specialize (Hy _ Hin2).
        destruct (Hs x y), (Hs y x). lia. }
    f_equal. apply IH; [exact Hl2|].
    intros a. specialize (Hcls a). cbn in Hcls.
    destruct (cmp a x =? 0); [now injection Hcls | exact Hcls].
Qed.

Lemma sort_unique l l' :
  StronglySorted (fun a b => cmp a b <= 0) l' ->
  (forall a, List.filter (fun b => cmp a b =? 0) l'
             = List.filter (fun b => cmp a b =? 0) l) ->
  l' = JS.sort cmp l.
Proof.
  intros Hsorted Hstable. apply sorted_stable_eq; [exact Hsorted|apply sort_sorted|].
  intros a. now rewrite Hstable, sort_stable.
Qed.

End SortFacts.

Lemma StronglySorted_weaken {A} (R R' : A -> A -> Prop) l :
  (forall a b, R a b -> R' a b) -> StronglySorted R l -> StronglySorted R' l.
Proof.
  intros HR. induction 1 as [|x l Hl IH Hx]; constructor; [exact IH|].
  eapply List.Forall_impl; [|exact Hx]. intros b. apply HR.
Qed.

(** ** The order on keys *)

Lemma string_compare_le_trans s1 s2 s3 :
  String.compare s1 s2 <> Gt -> String.compare s2 s3 <> Gt ->
  String.compare s1 s3 <> Gt.
Proof.
  revert s2 s3. induction s1 as [|c1 t1 IH]; intros [|c2 t2] [|c3 t3];
    cbn [String.compare]; try congruence.
  unfold Ascii.compare.
  destruct (N.compare_spec (N_of_ascii c1) (N_of_ascii c2)) as [E12|L12|G12];
    destruct (N.compare_spec (N_of_ascii c2) (N_of_ascii c3)) as [E23|L23|G23];
    destruct (N.compare_spec (N_of_ascii c1) (N_of_ascii c3)) as [E13|L13|G13];
    try congruence; try lia.
  apply IH.
Qed.

Lemma compareKeys_Z a b dir :
  compareKeys Z.ltb a b dir = dir * rank (a ?= b).
Proof.
  unfold compareKeys.
  destruct (Z.ltb_spec a b), (Z.ltb_spec b a), (Z.compare_spec a b);
    cbn [rank]; lia.
Qed.

Lemma compareKeys_string a b dir :
  compareKeys String.ltb a b dir = dir * rank (String.compare a b).
Proof.
  unfold compareKeys, String.ltb. rewrite (String.compare_antisym b a).
  destruct (String.compare a b); cbn [rank CompOpp]; lia.
Qed.

Section KeyOrder.
Context `{Host}.

Lemma compareEmployees_rank sort a b :
  compareEmployees sort a b
  = dirOf (EmployeeSort.order sort) * rank (keyCompare (EmployeeSort.field sort) a b).
Proof.
  unfold compareEmployees, keyCompare.
  destruct (EmployeeSort.field sort);
    auto using compareKeys_Z, compareKeys_string.
Qed.

Lemma keyCompare_antisym field a b :
  keyCompare field b a = CompOpp (keyCompare field a b).
Proof.
  destruct field; cbn [keyCompare];
    auto using Z.compare_antisym, String.compare_antisym.
Qed.

Lemma keyCompare_le_trans field a b c :
  keyCompare field a b <> Gt -> keyCompare field b c <> Gt ->
  keyCompare field a c <> Gt.
Proof.
  destruct field; cbn [keyCompare];
    solve [apply string_compare_le_trans | exact (Z.le_trans _ _ _)].
Qed.

Lemma compareEmployees_le sort a b :
  compareEmployees sort a b <= 0 <-> inOrder sort a b.
Proof.
  rewrite compareEmployees_rank. unfold inOrder.
  destruct (EmployeeSort.order sort), (keyCompare _ a b);
    cbn [dirOf rank]; split; intros; try congruence; lia.
Qed.

Lemma compareEmployees_zero sort a b :
  (compareEmployees sort a b =? 0) = sameKey (EmployeeSort.field sort) a b.
Proof.
  rewrite compareEmployees_rank. unfold sameKey.
  destruct (EmployeeSort.order sort), (keyCompare _ a b); reflexivity.
Qed.

Lemma compareEmployees_consistent sort : Consistent (compareEmployees sort).
Proof.
  split.
  - intros a b. rewrite !compareEmployees_rank, (keyCompare_antisym _ a b).
    destruct (EmployeeSort.order sort), (keyCompare _ a b);
      cbn [dirOf rank CompOpp]; lia.
  - intros a b c. rewrite !compareEmployees_le. unfold inOrder.
    destruct (EmployeeSort.order sort).
    + apply keyCompare_le_trans.
    + intros Hab Hbc.
      rewrite (keyCompare_antisym _ c a).
      rewrite (keyCompare_antisym _ b a) in Hab.
      rewrite (keyCompare_antisym _ c b) in Hbc.
      pose proof (keyCompare_le_trans (EmployeeSort.field sort) c b a) as Ht.
      destruct (keyCompare _ c a), (keyCompare _ c b), (keyCompare _ b a);
        cbn [CompOpp] in *; try congruence;
        exfalso; apply Ht; congruence.
Qed.

End KeyOrder.

(** ** Sorting *)

(** C3. For every record list and sort spec, [sortEmployees] returns a
    stable permutation of the list ordered by the designated field. The
    comparator is the order on keys ([keyCompare]: NAME on lower-cased
    names, AGE and ATTENDANCE on numbers, CREATED_AT on the timestamp
    strings) with its sign kept for ASC and reversed for DESC, and records
    with equal keys stay in the order they had before the sort. *)
Theorem sortEmployees_stable_sort `{Host} (lst : list Employee.t)
    (sort : EmployeeSort.t) :
  Permutation (sortEmployees lst (Some sort)) lst
  /\ StronglySorted (inOrder sort) (sortEmployees lst (Some sort))
  /\ (forall a,
        List.filter (sameKey (EmployeeSort.field sort) a)
          (sortEmployees lst (Some sort))
        = List.filter (sameKey (EmployeeSort.field sort) a) lst)
  /\ (forall a b,
        compareEmployees sort a b
        = dirOf (EmployeeSort.order sort)
          * rank (keyCompare (EmployeeSort.field sort) a b))
  /\ (forall field a b,
        compareEmployees (EmployeeSort.mk field DESC) a b
        = - compareEmployees (EmployeeSort.mk field ASC) a b).
Proof.
  cbn [sortEmployees]. repeat split.
  - apply sort_perm.
  - eapply StronglySorted_weaken;
      [|apply sort_sorted, compareEmployees_consistent].
    intros a b. apply compareEmployees_le.
  - intros a.
    rewrite <- !(List.filter_ext _ _ (compareEmployees_zero sort a)).
    apply sort_stable, compareEmployees_consistent.
  - apply compareEmployees_rank.
  - intros field a b. rewrite !compareEmployees_rank.
    cbn [dirOf EmployeeSort.order EmployeeSort.field]. lia.
Qed.

(** ** Filtering *)

Lemma filter_true {A} (l : list A) : List.filter (fun _ => true) l = l.
Proof. induction l as [|x l IH]; cbn; congruence. Qed.

Lemma filter_twice {A} (p q : A -> bool) l :
  List.filter q (List.filter p l) = List.filter (fun x => p x && q x) l.
Proof.
  induction l as [|x l IH]; [reflexivity|].
  cbn. destruct (p x); cbn; [destruct (q x)|]; congruence.
Qed.

Lemma filter_when {A} (c : bool) (p : A -> bool) l :
  (if c then List.filter p l else l)
  = List.filter (fun x => if c then p x else true) l.
Proof. destruct c; [reflexivity|]. now rewrite filter_true. Qed.

Lemma filterEmployees_Some `{Host} lst filter :
  filterEmployees lst (Some filter) = List.filter (passesInForce filter) lst.
Proof.
  unfold filterEmployees, passesInForce, JS.truthy.
  destruct filter as [[q|] [c|] [m|]]; cbn [EmployeeFilter.nameContains
    EmployeeFilter.className EmployeeFilter.minAttendance];
    rewrite ?filter_when, ?filter_twice;
    try (symmetry; apply filter_true);
    apply List.filter_ext; intros e;
    try destruct (q =? "")%string; try destruct (c =? "")%string;
    cbn [negb];
    try destruct (JS.includes _ _);
    try destruct (Employee.className e =? _)%string;
    try destruct (Employee.attendance e >=? _);
    reflexivity.
Qed.

(** C2 as stated fails: with className supplied as the empty string the
    code keeps every record of the seed store, where filtering by presence
    keeps only records whose class label is empty, that is none. *)
Lemma filterEmployees_empty_className_not_by_presence :
  @filterEmployees sampleHost seed (Some (EmployeeFilter.mk None (Some "") None))
  = seed
  /\ List.filter
       (@passesPresent sampleHost (EmployeeFilter.mk None (Some "") None)) seed
     = []
  /\ @filterEmployees sampleHost seed (Some (EmployeeFilter.mk None (Some "") None))
     <> List.filter
          (@passesPresent sampleHost (EmployeeFilter.mk None (Some "") None)) seed.
Proof. repeat split. vm_compute. discriminate. Qed.

(** C2, amended. For every record list and filter spec, filtering is
    conjunctive over the predicates in force: a record is retained iff it
    satisfies each of them, and retained records keep their order. The
    nameContains and className predicates are in force only when supplied
    as a string that is not empty (supplied as the empty string they impose
    no constraint, like an absent field); minAttendance is in force
    whenever it is supplied as a number, zero included. When no filter
    spec is supplied the list comes back unchanged. *)
Theorem filterEmployees_in_force `{Host} (lst : list Employee.t)
    (filter : EmployeeFilter.t) :
  filterEmployees lst None = lst
  /\ filterEmployees lst (Some filter) = List.filter (passesInForce filter) lst
  /\ (forall e,
        In e (filterEmployees lst (Some filter))
        <-> In e lst /\ passesInForce filter e = true)
  /\ (forall e m,
        passesInForce (EmployeeFilter.mk None None (Some m)) e
        = (Employee.attendance e >=? m))
  /\ (forall e c,
        passesInForce (EmployeeFilter.mk None (Some c) None) e
        = if (c =? "")%string then true else (Employee.className e =? c)%string).
Proof.
  split; [reflexivity|]. split; [apply filterEmployees_Some|].
  split; [|split].
  - intros e. rewrite filterEmployees_Some. apply filter_In.
  - reflexivity.
  - intros e c. unfold passesInForce. cbn. now rewrite andb_true_r.
Qed.

(** ** Pagination *)

Lemma slice_window {A} (l : list A) (start n : Z) :
  0 <= start -> 0 <= n ->
  JS.slice l start (start + n) = take (Z.to_nat n) (drop (Z.to_nat start) l).
Proof.
  intros Hstart Hn. unfold JS.slice.
  destruct (Z.ltb_spec start 0), (Z.ltb_spec (start + n) 0); try lia.
  destruct (Z.le_gt_cases (Z.of_nat (length l)) start) as [Hout|Hin].
  - rewrite Z.min_r by lia.
    rewrite !drop_ge by lia. now rewrite !take_nil.
  - rewrite (Z.min_l start) by lia.
    destruct (Z.le_gt_cases (start + n) (Z.of_nat (length l))).
    + f_equal. lia.
    + rewrite !take_ge; [reflexivity|rewrite length_drop; lia..].
Qed.

(** C4. For every store, optional filter, optional sort, page >= 1 and
    pageSize >= 0, the items of the [employees] query are the window
    [(page-1)*pageSize, (page-1)*pageSize + pageSize) of the filtered, then
    sorted list, clamped to its bounds: item [i] is element
    [(page-1)*pageSize + i] of that list for [i < pageSize] and nothing
    beyond, so there are at most pageSize items and none when the window
    starts at or past the end. totalCount is the length of the filtered
    list whatever the page and pageSize, and the store is as it was. *)
Theorem employees_page `{Host} (store : list Employee.t)
    (filter : option EmployeeFilter.t) (sort : option EmployeeSort.t)
    (page pageSize : option Z) :
  let p := default 1 page in
  let ps := default 10 pageSize in
  let sorted := sortEmployees (filterEmployees store filter) sort in
  let start := (p - 1) * ps in
  1 <= p -> 0 <= ps ->
  exists items,
    Query.employees filter page pageSize sort store
    = (Ok (EmployeePage.mk items
             (Z.of_nat (length (filterEmployees store filter))) p ps),
       store)
    /\ items = take (Z.to_nat ps) (drop (Z.to_nat start) sorted)
    /\ (forall i : nat,
          items !! i
          = if Z.of_nat i <? ps then sorted !! (Z.to_nat start + i)%nat else None)
    /\ Z.of_nat (length items) <= ps
    /\ (Z.of_nat (length sorted) <= start -> items = []).
Proof.
  intros p ps sorted start Hp Hps.
  assert (0 <= start) as Hstart by (subst start; nia).
  exists (take (Z.to_nat ps) (drop (Z.to_nat start) sorted)).
  repeat split.
  - unfold Query.employees, bind, get, ret. fold p ps sorted start.
    rewrite slice_window by assumption.
    do 3 f_equal. subst sorted. destruct sort as [s|]; [|reflexivity].
    cbn [sortEmployees]. now rewrite sort_length.
  - intros i. destruct (Z.ltb_spec (Z.of_nat i) ps).
    + rewrite lookup_take_lt by lia. apply lookup_drop.
    + apply lookup_take_ge. lia.
  - rewrite length_take. lia.
  - intros Hout. rewrite drop_ge by lia. apply take_nil.
Qed.

Lemma employees_page_witness :
  exists items,
    @Query.employees sampleHost None (Some 2) (Some 2)
      (Some (EmployeeSort.mk NAME ASC)) seed
    = (Ok (EmployeePage.mk items 3 2 2), seed)
    /\ items = [clara].
Proof.
  destruct (@employees_page sampleHost seed None
              (Some (EmployeeSort.mk NAME ASC)) (Some 2) (Some 2))
    as (items & Hq & Hitems & _); [cbn; lia..|].
  exists items. split; [exact Hq|]. rewrite Hitems. reflexivity.
Defined.

(** ** The access gate *)

Lemma requireRole_ADMIN context s :
  requireRole context ["ADMIN"] s
  = match Context.user context with
    | None => (Err Unauthenticated, s)
    | Some user =>
        if (UserView.role user =? "ADMIN")%string then (Ok tt, s)
        else (Err Forbidden, s)
    end.
Proof.
  unfold requireRole, requireAuth, bind, throw, ret, JS.arrayIncludes.
  destruct (Context.user context) as [user|]; [|reflexivity].
  cbn [existsb]. rewrite orb_false_r.
  now destruct (UserView.role user =? "ADMIN")%string.
Qed.

Lemma addEmployee_gate input context now s :
  Mutation.addEmployee input context now s
  = match Context.user context with
    | None => (Err Unauthenticated, s)
    | Some user =>
        if (UserView.role user =? "ADMIN")%string then
          let employee :=
            Employee.mk ("e" ++ JS.toString (length s + 1))
              (EmployeeInput.name input) (EmployeeInput.age input)
              (EmployeeInput.className input) (EmployeeInput.subjects input)
              (EmployeeInput.attendance input)
              (match EmployeeInput.flagged input with
               | given b => Some b
               | _ => Some false
               end)
              now in
          (Ok employee, (s ++ [employee])%list)
        else (Err Forbidden, s)
    end.
Proof.
  unfold Mutation.addEmployee, bind at 1. rewrite requireRole_ADMIN.
  destruct (Context.user context) as [user|]; [|reflexivity].
  now destruct (UserView.role user =? "ADMIN")%string.
Qed.

Lemma findIndexFrom_spec {A} (p : A -> bool) l i :
  0 <= i ->
  (JS.findIndexFrom p l i = -1 /\ forall x, In x l -> p x = false)
  \/ (exists (n : nat) x,
        JS.findIndexFrom p l i = i + Z.of_nat n
        /\ l !! n = Some x /\ p x = true).
Proof.
  revert i. induction l as [|y l IH]; intros i Hi; cbn [JS.findIndexFrom].
  - left. split; [reflexivity|]. intros x [].
  - destruct (p y) eqn:Hy.
    + right. exists 0%nat, y. repeat split; [lia|exact Hy].
    + destruct (IH (i + 1)) as [[Hnone Hall]|(n & x & Hidx & Hn & Hx)]; [lia| |].
      * left. split; [exact Hnone|]. intros x [<-|Hin]; auto.
      * right. exists (S n), x. repeat split; [lia|exact Hn|exact Hx].
Qed.

Lemma updateEmployee_gate id input context s :
  Mutation.updateEmployee id input context s
  = match Context.user context with
    | None => (Err Unauthenticated, s)
    | Some user =>
        if (UserView.role user =? "ADMIN")%string then
          let idx := JS.findIndex (fun e => (Employee.id e =? id)%string) s in
          if idx =? -1 then (Err NotFound, s)
          else
            match s !! Z.to_nat idx with
            | Some old =>
                (Ok (Mutation.merge old input),
                 <[Z.to_nat idx := Mutation.merge old input]> s)
            | None => (Err NotFound, s)
            end
        else (Err Forbidden, s)
    end.
Proof.
  unfold Mutation.updateEmployee, bind at 1. rewrite requireRole_ADMIN.
  destruct (Context.user context) as [user|]; [|reflexivity].
  destruct (UserView.role user =? "ADMIN")%string; [|reflexivity].
  unfold bind, get, put, ret, throw. cbn zeta.
  destruct (_ =? -1); [reflexivity|].
  destruct (s !! Z.to_nat _) as [old|] eqn:Hold; [|reflexivity].
  rewrite list_lookup_insert_eq; [reflexivity|].
  now apply lookup_lt_Some in Hold.
Qed.

(** An index that [findIndex] returns is an index of the array: the
    branches of [updateEmployee] for a missing element are never taken. *)
Lemma updateEmployee_admin id input context user s :
  Context.user context = Some user ->
  UserView.role user = "ADMIN" ->
  (Mutation.updateEmployee id input context s = (Err NotFound, s)
   /\ forall e, In e s -> Employee.id e <> id)
  \/ (exists (idx : nat) old,
        s !! idx = Some old /\ Employee.id old = id
        /\ Mutation.updateEmployee id input context s
           = (Ok (Mutation.merge old input),
              <[idx := Mutation.merge old input]> s)).
Proof.
  intros Huser Hrole. rewrite updateEmployee_gate, Huser, Hrole.
  cbn [String.eqb Ascii.eqb Bool.eqb]. cbn zeta. unfold JS.findIndex.
  destruct (findIndexFrom_spec (fun e => (Employee.id e =? id)%string) s 0)
    as [[Hnone Hall]|(n & x & Hidx & Hn & Hx)]; [lia| |].
  - left. rewrite Hnone. split; [reflexivity|].
    intros e Hin. apply String.eqb_neq. now apply Hall.
  - right. exists n, x. rewrite Hidx.
    destruct (Z.eqb_spec (0 + Z.of_nat n) (-1)); [lia|].
    replace (Z.to_nat (0 + Z.of_nat n)) with n by lia.
    split; [exact Hn|]. split; [now apply String.eqb_eq|].
    now rewrite Hn.
Qed.

Lemma findIndexFrom_first {A} (p : A -> bool) l i :
  0 <= i ->
  (JS.findIndexFrom p l i = -1 /\ forall x, In x l -> p x = false)
  \/ (exists (n : nat) x,
        JS.findIndexFrom p l i = i + Z.of_nat n
        /\ l !! n = Some x /\ p x = true
        /\ forall (m : nat) y, (m < n)%nat -> l !! m = Some y -> p y = false).
Proof.
  revert i. induction l as [|z l IH]; intros i Hi; cbn [JS.findIndexFrom].
  - left. split; [reflexivity|]. intros x [].
  - destruct (p z) eqn:Hz.
    + right. exists 0%nat, z. repeat split; [lia|exact Hz|]. intros m y Hm. lia.
    + destruct (IH (i + 1)) as [[Hnone Hall]|(n & x & Hidx & Hn & Hx & Hb)]; [lia| |].
      * left. split; [exact Hnone|]. intros x [<-|Hin]; auto.
      * right. exists (S n), x. repeat split; [lia|exact Hn|exact Hx|].
        intros [|m] y Hm Hy; cbn in Hy; [now injection Hy as <-|].
        apply (Hb m y); [lia|exact Hy].
Qed.

(** What [updateEmployee] does for an ADMIN, with the index it finds. *)
Lemma updateEmployee_first id input context user s :
  Context.user context = Some user ->
  UserView.role user = "ADMIN" ->
  (Mutation.updateEmployee id input context s = (Err NotFound, s)
   /\ forall e, In e s -> Employee.id e <> id)
  \/ (exists (idx : nat) old,
        s !! idx = Some old /\ Employee.id old = id
        /\ (forall (m : nat) y, (m < idx)%nat -> s !! m = Some y -> Employee.id y <> id)
        /\ Mutation.updateEmployee id input context s
           = (Ok (Mutation.merge old input),
              <[idx := Mutation.merge old input]> s)).
Proof.
  intros Huser Hrole. rewrite updateEmployee_gate, Huser, Hrole.
  cbn [String.eqb Ascii.eqb Bool.eqb]. cbn zeta. unfold JS.findIndex.
  destruct (findIndexFrom_first (fun e => (Employee.id e =? id)%string) s 0)
    as [[Hnone Hall]|(n & x & Hidx & Hn & Hx & Hb)]; [lia| |].
  - left. rewrite Hnone. split; [reflexivity|].
    intros e Hin. apply String.eqb_neq. now apply Hall.
  - right. exists n, x. rewrite Hidx.
    destruct (Z.eqb_spec (0 + Z.of_nat n) (-1)); [lia|].
    replace (Z.to_nat (0 + Z.of_nat n)) with n by lia.
    split; [exact Hn|]. split; [now apply String.eqb_eq|]. split.
    + intros m y Hm Hy. apply String.eqb_neq. now apply (Hb m y).
    + now rewrite Hn.
Qed.

(** C5. For every store and input, [addEmployee] and [updateEmployee] fail
    with Unauthenticated when the context carries no user and with
    Forbidden when the user's role is not ADMIN (EMPLOYEE for one); when
    the role is ADMIN neither failure occurs. A call that fails this way
    leaves the store as it was. *)
Theorem mutations_require_admin (store : list Employee.t)
    (input : EmployeeInput.t) (id now : string) (context : Context.t) :
  (Context.user context = None ->
     Mutation.addEmployee input context now store = (Err Unauthenticated, store)
     /\ Mutation.updateEmployee id input context store
        = (Err Unauthenticated, store))
  /\ (forall user,
        Context.user context = Some user -> UserView.role user <> "ADMIN" ->
        Mutation.addEmployee input context now store = (Err Forbidden, store)
        /\ Mutation.updateEmployee id input context store
           = (Err Forbidden, store))
  /\ (forall user,
        Context.user context = Some user -> UserView.role user = "ADMIN" ->
        forall e, e = Unauthenticated \/ e = Forbidden ->
        fst (Mutation.addEmployee input context now store) <> Err e
        /\ fst (Mutation.updateEmployee id input context store) <> Err e).
Proof.
  rewrite addEmployee_gate, updateEmployee_gate. split; [|split].
  - intros ->. now split.
  - intros user -> Hrole%String.eqb_neq. rewrite Hrole. now split.
  - intros user Huser Hrole e He. split.
    + rewrite Huser, Hrole. cbn. destruct He; subst; discriminate.
    + rewrite <- updateEmployee_gate.
      destruct (updateEmployee_admin id input context user store Huser Hrole)
        as [[Hu _]|(idx & old & _ & _ & Hu)];
        rewrite Hu; cbn; destruct He; subst; discriminate.
Qed.

Lemma mutations_require_admin_witness :
  (Mutation.addEmployee
     danInput
     anonymous "2024-06-01T09:00:00.000Z" seed
   = (Err Unauthenticated, seed)
   /\ Mutation.updateEmployee "e2"
        danInput
        anonymous seed
      = (Err Unauthenticated, seed))
  /\ (Mutation.addEmployee
        danInput
        john "2024-06-01T09:00:00.000Z" seed
      = (Err Forbidden, seed)
      /\ Mutation.updateEmployee "e2"
           danInput
           john seed
         = (Err Forbidden, seed))
  /\ (fst (Mutation.addEmployee
             danInput
             admin "2024-06-01T09:00:00.000Z" seed)
      <> Err Forbidden
      /\ fst (Mutation.updateEmployee "e2"
                danInput
                admin seed)
         <> Err Forbidden).
Proof.
  split; [|split].
  - apply (proj1 (mutations_require_admin seed _ "e2" _ anonymous)).
    reflexivity.
  - apply (proj1 (proj2 (mutations_require_admin seed _ "e2" _ john))
             (UserView.mk "2" "john" "EMPLOYEE")); [reflexivity|discriminate].
  - apply (proj2 (proj2 (mutations_require_admin seed _ "e2" _ admin))
             (UserView.mk "1" "admin" "ADMIN")); [reflexivity..|now right].
Defined.

(** C10. [updateEmployee] checks the caller before it looks for the
    record: for every store and every id, in the store or not, it fails
    with Unauthenticated when the context has no user and with Forbidden
    when the user's role is not ADMIN; when it fails with NotFound the
    caller is a user whose role is ADMIN. *)
Theorem updateEmployee_gate_before_lookup (store : list Employee.t)
    (id : string) (input : EmployeeInput.t) (context : Context.t) :
  (Context.user context = None ->
     Mutation.updateEmployee id input context store
     = (Err Unauthenticated, store))
  /\ (forall user,
        Context.user context = Some user -> UserView.role user <> "ADMIN" ->
        Mutation.updateEmployee id input context store = (Err Forbidden, store))
  /\ (fst (Mutation.updateEmployee id input context store) = Err NotFound ->
      exists user,
        Context.user context = Some user /\ UserView.role user = "ADMIN").
Proof.
  rewrite updateEmployee_gate. split; [|split].
  - now intros ->.
  - intros user -> Hrole%String.eqb_neq. now rewrite Hrole.
  - destruct (Context.user context) as [user|]; [|discriminate].
    destruct (String.eqb_spec (UserView.role user) "ADMIN") as [Hrole|];
      [|discriminate].
    intros _. now exists user.
Qed.

Lemma updateEmployee_gate_before_lookup_witness :
  Mutation.updateEmployee "e99"
    danInput anonymous seed
  = (Err Unauthenticated, seed)
  /\ Mutation.updateEmployee "e99"
       danInput john seed
     = (Err Forbidden, seed)
  /\ exists user,
       Context.user admin = Some user /\ UserView.role user = "ADMIN".
Proof.
  split; [|split].
  - apply (proj1 (updateEmployee_gate_before_lookup seed "e99" _ anonymous)).
    reflexivity.
  - apply (proj1 (proj2 (updateEmployee_gate_before_lookup seed "e99" _ john))
             (UserView.mk "2" "john" "EMPLOYEE")); [reflexivity|discriminate].
  - apply (proj2 (proj2 (updateEmployee_gate_before_lookup seed "e99"
             danInput admin))).
    reflexivity.
Defined.

(** ** Updating a record *)

(** C7. For every store, an [updateEmployee] call by an ADMIN whose id
    matches no record fails with NotFound and leaves the store exactly as
    it was. *)
Theorem updateEmployee_missing_id (store : list Employee.t) (id : string)
    (input : EmployeeInput.t) (context : Context.t) (user : UserView.t) :
  Context.user context = Some user ->
  UserView.role user = "ADMIN" ->
  (forall e, In e store -> Employee.id e <> id) ->
  Mutation.updateEmployee id input context store = (Err NotFound, store).
Proof.
  intros Huser Hrole Hmiss.
  destruct (updateEmployee_admin id input context user store Huser Hrole)
    as [[Hu _]|(idx & old & Hold & Hid & _)]; [exact Hu|].
  exfalso. apply (Hmiss old); [|exact Hid].
  apply list_elem_of_In. eapply list_elem_of_lookup_2, Hold.
Qed.

Lemma updateEmployee_missing_id_witness :
  Mutation.updateEmployee "e99"
    danInput admin seed
  = (Err NotFound, seed).
Proof.
  apply (updateEmployee_missing_id seed "e99" _ admin
           (UserView.mk "1" "admin" "ADMIN")); [reflexivity..|].
  intros e [<-|[<-|[<-|[]]]]; discriminate.
Defined.

(** C8. For every store and update input, [updateEmployee] by an ADMIN
    on an id that some record has succeeds: it takes the first record with
    that id and returns the merged record, which carries every field the
    input supplies (name, age, className, subjects, attendance, and
    flagged when the input has it, [null] included), keeps flagged when
    the input omits it, and keeps the id and the creation timestamp; the
    store after the call holds the returned record at the index of the
    old one and every other record where and as it was. It succeeds in no
    other case. *)
Theorem updateEmployee_merges (store : list Employee.t) (id : string)
    (input : EmployeeInput.t) (context : Context.t) :
  (forall user,
     Context.user context = Some user ->
     UserView.role user = "ADMIN" ->
     (exists e, In e store /\ Employee.id e = id) ->
     exists (idx : nat) (old r : Employee.t) (store' : list Employee.t),
       Mutation.updateEmployee id input context store = (Ok r, store')
       /\ store !! idx = Some old
       /\ Employee.id old = id
       /\ (forall (m : nat) y,
             (m < idx)%nat -> store !! m = Some y -> Employee.id y <> id)
       /\ Employee.name r = EmployeeInput.name input
       /\ Employee.age r = EmployeeInput.age input
       /\ Employee.className r = EmployeeInput.className input
       /\ Employee.subjects r = EmployeeInput.subjects input
       /\ Employee.attendance r = EmployeeInput.attendance input
       /\ Employee.flagged r
          = match EmployeeInput.flagged input with
            | omitted => Employee.flagged old
            | null => None
            | given b => Some b
            end
       /\ Employee.id r = Employee.id old
       /\ Employee.createdAt r = Employee.createdAt old
       /\ store' !! idx = Some r
       /\ length store' = length store
       /\ (forall j : nat, j <> idx -> store' !! j = store !! j))
  /\ (forall r store',
        Mutation.updateEmployee id input context store = (Ok r, store') ->
        (exists user,
           Context.user context = Some user /\ UserView.role user = "ADMIN")
        /\ (exists e, In e store /\ Employee.id e = id)).
Proof.
  split.
  - intros user Huser Hrole (e & Hin & He).
    destruct (updateEmployee_first id input context user store Huser Hrole)
      as [[_ Hmiss]|(idx & old & Hold & Hid & Hfirst & Hu)];
      [now destruct (Hmiss e Hin)|].
    exists idx, old, (Mutation.merge old input),
      (<[idx := Mutation.merge old input]> store).
    repeat split; try assumption.
    + apply list_lookup_insert_eq. now apply lookup_lt_Some in Hold.
    + apply length_insert.
    + intros j Hj. now apply list_lookup_insert_ne.
  - intros r store' Hupd.
    destruct (Context.user context) as [user|] eqn:Huser;
      [|rewrite updateEmployee_gate, Huser in Hupd; discriminate].
    destruct (String.eqb_spec (UserView.role user) "ADMIN") as [Hrole|Hrole];
      [|apply String.eqb_neq in Hrole;
        rewrite updateEmployee_gate, Huser, Hrole in Hupd; discriminate].
    split; [now exists user|].
    destruct (updateEmployee_first id input context user store Huser Hrole)
      as [[Hu _]|(idx & old & Hold & Hid & _ & _)];
      [rewrite Hu in Hupd; discriminate|].
    exists old. split; [|exact Hid].
    apply list_elem_of_In. eapply list_elem_of_lookup_2, Hold.
Qed.

Lemma updateEmployee_merges_witness :
  exists (idx : nat) (old r : Employee.t) (store' : list Employee.t),
    Mutation.updateEmployee "e2" bobInput admin seed = (Ok r, store')
    /\ seed !! idx = Some old
    /\ Employee.name r = "Bob S. Singh"
    /\ Employee.flagged r = None
    /\ Employee.createdAt r = Employee.createdAt old
    /\ store' !! idx = Some r.
Proof.
  destruct (proj1 (updateEmployee_merges seed "e2" bobInput admin)
              (UserView.mk "1" "admin" "ADMIN") eq_refl eq_refl
              (ex_intro _ bob (conj (or_intror (or_introl eq_refl)) eq_refl)))
    as (idx & old & r & store' & Hupd & Hold & _ & _ & Hname & _ & _ & _ & _
        & Hfl & _ & Hcr & Hnew & _).
  exists idx, old, r, store'. repeat split; assumption.
Defined.

(** ** Logging in *)

(** C6. [login] fails with InvalidCredentials iff no user record has both
    the given username and the given password, compared as plain strings.
    When it succeeds a record matches both, and the result pairs the token
    signed over [{id, username, role}] of that record, valid for two
    hours, with that same projection; the password is in neither. It
    never touches the store. Over the static users,
    [login "admin" "admin123"] returns the user
    [{id: "1", username: "admin", role: "ADMIN"}] and
    [login "admin" "wrong"] fails with InvalidCredentials. *)
Theorem login_checks_credentials `{Host} (username password : string)
    (clock : Z) (store : list Employee.t) :
  (fst (Mutation.login username password clock store) = Err InvalidCredentials
   <-> forall u, In u users ->
         ~ (User.username u = username /\ User.password u = password))
  /\ (forall payload,
        fst (Mutation.login username password clock store) = Ok payload ->
        exists u,
          In u users /\ User.username u = username /\ User.password u = password
          /\ AuthPayload.user payload
             = UserView.mk (User.id u) (User.username u) (User.role u)
          /\ AuthPayload.token payload
             = jwt_sign (UserView.mk (User.id u) (User.username u) (User.role u))
                 JWT_SECRET "2h" clock)
  /\ (fst (Mutation.login username password clock store) <> Err InvalidCredentials ->
      exists payload,
        Mutation.login username password clock store = (Ok payload, store))
  /\ snd (Mutation.login username password clock store) = store
  /\ Mutation.login "admin" "admin123" clock store
     = (Ok (AuthPayload.mk
              (jwt_sign (UserView.mk "1" "admin" "ADMIN") JWT_SECRET "2h" clock)
              (UserView.mk "1" "admin" "ADMIN")),
        store)
  /\ Mutation.login "admin" "wrong" clock store = (Err InvalidCredentials, store).
Proof.
  unfold Mutation.login at 1 2 3 4 5. unfold JS.find.
  destruct (List.find _ users) as [u|] eqn:Hfind.
  - apply List.find_some in Hfind as [Hin Hmatch].
    apply andb_true_iff in Hmatch as [Hu%String.eqb_eq Hp%String.eqb_eq].
    cbn [fst snd ret]. repeat split; try discriminate.
    + intros Hnone. now destruct (Hnone u Hin).
    + intros payload [= <-]. now exists u.
    + intros _. now eexists.
  - cbn [fst snd throw]. repeat split; try discriminate; try congruence.
    intros _ u Hin [Hu Hp].
    pose proof (List.find_none _ _ Hfind u Hin) as Hno. cbn beta in Hno.
    apply String.eqb_eq in Hu, Hp. now rewrite Hu, Hp in Hno.
Qed.

Lemma login_checks_credentials_witness :
  exists u,
    In u users /\ User.username u = "john" /\ User.password u = "john123"
    /\ UserView.mk "2" "john" "EMPLOYEE"
       = UserView.mk (User.id u) (User.username u) (User.role u)
    /\ "john.supersecret-key.2h"
       = @jwt_sign sampleHost
           (UserView.mk (User.id u) (User.username u) (User.role u))
           (@JWT_SECRET sampleHost) "2h" 1717232400.
Proof.
  exact (proj1 (proj2 (@login_checks_credentials sampleHost "john" "john123"
                         1717232400 seed))
           (AuthPayload.mk "john.supersecret-key.2h"
              (UserView.mk "2" "john" "EMPLOYEE"))
           eq_refl).
Defined.

(** ** Ids *)

Lemma toString_inj n m : JS.toString n = JS.toString m -> n = m.
Proof.
  unfold JS.toString. intros E.
  apply DecimalNat.Unsigned.to_uint_inj.
  apply (f_equal NilEmpty.uint_of_string) in E.
  rewrite !NilEmpty.usu in E. congruence.
Qed.

Lemma numbered_seed : numbered seed.
Proof.
  intros [|[|[|i]]] e He; cbn in He; try discriminate;
    injection He as <-; reflexivity.
Qed.

Lemma numbered_NoDup s : numbered s -> NoDup (map Employee.id s).
Proof.
  intros Hnum. apply NoDup_alt. intros i j x Hi Hj.
  change (map Employee.id s) with (Employee.id <$> s) in Hi, Hj.
  rewrite list_lookup_fmap in Hi, Hj.
  destruct (s !! i) as [a|] eqn:Ha; [|discriminate].
  destruct (s !! j) as [b|] eqn:Hb; [|discriminate].
  cbn in Hi, Hj. apply Hnum in Ha, Hb. cbn [String.append] in Ha, Hb.
  assert (JS.toString (i + 1) = JS.toString (j + 1)) as E%toString_inj
    by congruence.
  lia.
Qed.

Lemma numbered_fresh s :
  numbered s -> ~ In ("e" ++ JS.toString (length s + 1))%string (map Employee.id s).
Proof.
  intros Hnum Hin. apply in_map_iff in Hin as (e & Hid & Hin).
  apply list_elem_of_In, list_elem_of_lookup in Hin as [i Hi].
  pose proof (lookup_lt_Some _ _ _ Hi) as Hlt.
  apply Hnum in Hi. cbn [String.append] in Hi, Hid.
  assert (JS.toString (i + 1) = JS.toString (length s + 1)) as E%toString_inj
    by congruence.
  lia.
Qed.

Lemma numbered_step s op : numbered s -> numbered (step s op).
Proof.
  intros Hnum. destruct op as [input context now|id input context]; cbn [step].
  - rewrite addEmployee_gate.
    destruct (Context.user context) as [user|]; [|exact Hnum].
    destruct (UserView.role user =? "ADMIN")%string; [|exact Hnum].
    cbn [snd]. intros i e He.
    apply lookup_app_Some in He as [He|[Hge He]]; [now apply Hnum|].
    destruct (i - length s)%nat as [|k] eqn:Hk; [|discriminate].
    injection He as <-. cbn [Employee.id]. do 2 f_equal. lia.
  - destruct (Context.user context) as [user|] eqn:Huser;
      [|rewrite updateEmployee_gate, Huser; exact Hnum].
    destruct (String.eqb_spec (UserView.role user) "ADMIN") as [Hrole|Hrole];
      [|apply String.eqb_neq in Hrole;
        rewrite updateEmployee_gate, Huser, Hrole; exact Hnum].
    destruct (updateEmployee_admin id input context user s Huser Hrole)
      as [[Hu _]|(idx & old & Hold & _ & Hu)]; rewrite Hu; [exact Hnum|].
    cbn [snd]. intros i e He.
    destruct (decide (idx = i)) as [->|Hne].
    + rewrite list_lookup_insert_eq in He by now apply lookup_lt_Some in Hold.
      injection He as <-. cbn [Mutation.merge Employee.id]. now apply Hnum.
    + rewrite list_lookup_insert_ne in He by exact Hne. now apply Hnum.
Qed.

Lemma numbered_run ops s : numbered s -> numbered (run ops s).
Proof.
  revert s. induction ops as [|op ops IH]; intros s Hnum; [exact Hnum|].
  cbn [run fold_left]. apply IH. now apply numbered_step.
Qed.

(** C9. Starting from the seed store, after any sequence of [addEmployee]
    and [updateEmployee] calls, whoever makes them and whether they
    succeed or not, the ids of the records in the store are pairwise
    distinct, and an [addEmployee] that succeeds appends a record whose id
    no record of the store has. *)
Theorem employee_ids_unique (ops : list Op) :
  let store := run ops seed in
  NoDup (map Employee.id store)
  /\ (forall (i j : nat) a b,
        store !! i = Some a -> store !! j = Some b -> i <> j ->
        Employee.id a <> Employee.id b)
  /\ (forall input context now e store',
        Mutation.addEmployee input context now store = (Ok e, store') ->
        ~ In (Employee.id e) (map Employee.id store)
        /\ store' = (store ++ [e])%list).
Proof.
  intros store.
  assert (numbered store) as Hnum by apply numbered_run, numbered_seed.
  split; [now apply numbered_NoDup|]. split.
  - intros i j a b Ha Hb Hij Hid. apply Hnum in Ha, Hb.
    cbn [String.append] in Ha, Hb.
    assert (JS.toString (i + 1) = JS.toString (j + 1)) as E%toString_inj
      by congruence.
    lia.
  - intros input context now e store'. rewrite addEmployee_gate.
    destruct (Context.user context) as [user|]; [|discriminate].
    destruct (UserView.role user =? "ADMIN")%string; [|discriminate].
    cbn zeta. intros [= <- <-]. split; [|reflexivity].
    cbn [Employee.id]. now apply numbered_fresh.
Qed.

Lemma employee_ids_unique_witness :
  ~ In "e5"
      (map Employee.id
         (run [opAdd danInput admin "2024-06-01T09:00:00.000Z";
               opUpdate "e2" bobInput admin;
               opAdd danInput john "2024-06-02T09:00:00.000Z"] seed)).
Proof.
  refine (proj1 (proj2 (proj2 (employee_ids_unique
            [opAdd danInput admin "2024-06-01T09:00:00.000Z";
             opUpdate "e2" bobInput admin;
             opAdd danInput john "2024-06-02T09:00:00.000Z"]))
          danInput admin "2024-06-03T09:00:00.000Z"
          (Employee.mk "e5" "Dan Wu" 41 "Class C" ["Art"] 77 (Some false)
             "2024-06-03T09:00:00.000Z")
          _ eq_refl)).
Defined.

(** * Further properties *)

(** ** The gate, for any list of roles *)

Lemma arrayIncludes_In roles x : JS.arrayIncludes roles x = true <-> In x roles.
Proof.
  unfold JS.arrayIncludes. rewrite existsb_exists. split.
  - intros (y & Hin & ->%String.eqb_eq). exact Hin.
  - intros Hin. exists x. split; [exact Hin|apply String.eqb_refl].
Qed.

(** X1. [requireRole] lets a request through exactly when the context
    carries a user whose role is one of [roles]; it fails with
    Unauthenticated exactly when there is no user and with Forbidden
    exactly when there is one with some other role (always, for an empty
    list of roles). It never touches the store. *)
Theorem requireRole_spec (context : Context.t) (roles : list string)
    (store : list Employee.t) :
  snd (requireRole context roles store) = store
  /\ (fst (requireRole context roles store) = Ok tt
      <-> exists user,
            Context.user context = Some user /\ In (UserView.role user) roles)
  /\ (fst (requireRole context roles store) = Err Unauthenticated
      <-> Context.user context = None)
  /\ (fst (requireRole context roles store) = Err Forbidden
      <-> exists user,
            Context.user context = Some user /\ ~ In (UserView.role user) roles).
Proof.
  unfold requireRole, requireAuth, bind, throw, ret.
  destruct (Context.user context) as [user|]; cbn [fst snd].
  - pose proof (arrayIncludes_In roles (UserView.role user)) as Hin.
    destruct (JS.arrayIncludes roles (UserView.role user)); cbn [negb fst snd].
    + repeat split; try discriminate.
      * intros _. exists user. split; [reflexivity|now apply Hin].
      * intros (u & [= <-] & Hno). exfalso. apply Hno. now apply Hin.
    + repeat split; try discriminate.
      * intros (u & [= <-] & Hyes). apply Hin in Hyes. discriminate.
      * intros _. exists user. split; [reflexivity|].
        intros Hyes. apply Hin in Hyes. discriminate.
  - repeat split; try discriminate; intros (u & Hu & _); discriminate.
Qed.

(** ** The request context *)

Lemma prefix_skip p s :
  String.prefix p s = true -> s = (p ++ JS.skip (String.length p) s)%string.
Proof.
  revert s. induction p as [|c p IH]; intros s; [reflexivity|].
  destruct s as [|d s]; cbn [String.prefix]; [discriminate|].
  destruct (ascii_dec c d) as [<-|]; [|discriminate].
  intros Hp. cbn [String.length JS.skip String.append]. f_equal. now apply IH.
Qed.

Lemma prefix_append p s : String.prefix p (p ++ s) = true.
Proof.
  induction p as [|c p IH]; cbn; [now destruct s|].
  destruct (ascii_dec c c); [exact IH|congruence].
Qed.

Lemma skip_append p s : JS.skip (String.length p) (p ++ s) = s.
Proof. induction p as [|c p IH]; [reflexivity|exact IH]. Qed.

Lemma replace_prefix p s r : JS.replace (p ++ s) p r = (r ++ s)%string.
Proof.
  assert (forall x, JS.replace x p r
                    = if String.prefix p x
                      then (r ++ JS.skip (String.length p) x)%string
                      else match x with
                           | EmptyString => EmptyString
                           | String c x' => String c (JS.replace x' p r)
                           end) as Heq by (now intros [|c x]).
  now rewrite Heq, prefix_append, skip_append.
Qed.

Lemma createContext_Bearer_token `{Host} `{JwtVerify} t clock :
  createContext (Some ("Bearer " ++ t)%string) clock
  = Context.mk (jwt_verify t JWT_SECRET clock).
Proof.
  unfold createContext, JS.startsWith.
  change (JS.truthy ("Bearer " ++ t)) with true. cbv iota zeta.
  rewrite replace_prefix, prefix_append. reflexivity.
Qed.

(** X2. For any token [t], the header ["Bearer " ++ t] gives the context
    whatever [jwt.verify] makes of exactly [t], also when [t] itself
    contains ["Bearer "]: a token that does not verify gives a context
    without user, not an error. *)
Theorem createContext_bearer `{Host} `{JwtVerify} (t : string) (clock : Z) :
  createContext (Some ("Bearer " ++ t)%string) clock
  = Context.mk (jwt_verify t JWT_SECRET clock).
Proof. apply createContext_Bearer_token. Qed.

(** X3. The context carries a user only for a header that is ["Bearer "]
    followed by a token that verifies: no header, an empty one, another
    scheme or another spelling of the scheme all give a context without
    user. *)
Theorem createContext_user `{Host} `{JwtVerify} (authorization : option string)
    (clock : Z) (user : UserView.t) :
  Context.user (createContext authorization clock) = Some user
  <-> exists t,
        authorization = Some ("Bearer " ++ t)%string
        /\ jwt_verify t JWT_SECRET clock = Some user.
Proof.
  split.
  - unfold createContext. cbn [Context.user].
    destruct authorization as [a|]; [|discriminate].
    destruct (JS.truthy a); [|discriminate].
    destruct (JS.startsWith a "Bearer ") eqn:Hp; [|discriminate].
    apply prefix_skip in Hp. intros Hv.
    exists (JS.skip (String.length "Bearer ") a). split; [now f_equal|].
    rewrite Hp, replace_prefix in Hv at 1. exact Hv.
  - intros (t & -> & Hv). now rewrite createContext_Bearer_token.
Qed.

Lemma createContext_client `{Host} `{JwtVerify} token clock :
  Context.user (createContext (Client.authorization token) clock)
  = match token with
    | Some t => if (t =? "")%string then None else jwt_verify t JWT_SECRET clock
    | None => None
    end.
Proof.
  destruct token as [t|]; [|reflexivity].
  unfold Client.authorization, JS.truthy.
  destruct (t =? "")%string; [reflexivity|]. cbn [negb].
  now rewrite createContext_Bearer_token.
Qed.

Lemma login_Ok `{Host} username password clock store payload :
  Mutation.login username password clock store = (Ok payload, store) ->
  exists u,
    In u users /\ User.username u = username
    /\ AuthPayload.user payload
       = UserView.mk (User.id u) (User.username u) (User.role u).
Proof.
  unfold Mutation.login, JS.find.
  destruct (List.find _ users) as [u|] eqn:Hfind; [|discriminate].
  apply List.find_some in Hfind as [Hin Hmatch].
  apply andb_true_iff in Hmatch as [Hu%String.eqb_eq _].
  intros [= <-]. now exists u.
Qed.

(** X4. What the client sends the server reads back: for a token the
    client holds, the context is what [jwt.verify] makes of that very
    token; without a token, or with an empty one, the client sends no
    header and the context has no user. *)
Theorem client_header_read_back `{Host} `{JwtVerify} (token : option string)
    (clock : Z) :
  Context.user (createContext (Client.authorization token) clock)
  = match token with
    | Some t => if (t =? "")%string then None else jwt_verify t JWT_SECRET clock
    | None => None
    end.
Proof. apply createContext_client. Qed.

(** X5. From logging in to mutating: when [login] succeeds and the token
    it returns verifies to its payload at the time of a later request,
    that request, sent by the client with the token, sees the user of the
    login as [me]; its [addEmployee] succeeds when the login was the
    admin's and fails with Forbidden when it was john's. *)
Theorem login_then_mutate `{Host} `{JwtVerify} (username password : string)
    (clock clock' : Z) (store : list Employee.t) (payload : AuthPayload.t)
    (input : EmployeeInput.t) (now : string) :
  Mutation.login username password clock store = (Ok payload, store) ->
  AuthPayload.token payload <> "" ->
  jwt_verify (AuthPayload.token payload) JWT_SECRET clock'
  = Some (AuthPayload.user payload) ->
  let context :=
    createContext (Client.authorization (Some (AuthPayload.token payload)))
      clock' in
  Query.me context store = (Ok (Some (AuthPayload.user payload)), store)
  /\ (username = "admin" ->
      exists e,
        Mutation.addEmployee input context now store
        = (Ok e, (store ++ [e])%list))
  /\ (username = "john" ->
      Mutation.addEmployee input context now store = (Err Forbidden, store))
  /\ (username = "admin" \/ username = "john").
Proof.
  intros Hlogin Htoken%String.eqb_neq Hverify context.
  assert (Context.user context = Some (AuthPayload.user payload)) as Hctx.
  { subst context. rewrite createContext_client, Htoken. exact Hverify. }
  destruct (login_Ok _ _ _ _ _ Hlogin) as (u & Hin & Hu & Hview).
  split; [unfold Query.me, ret; now rewrite Hctx|].
  rewrite addEmployee_gate, Hctx, Hview. cbn [UserView.role].
  destruct Hin as [<-|[<-|[]]]; cbn in Hu; subst username;
    cbn [User.role]; repeat split; try discriminate; auto.
  intros _. now eexists.
Qed.

Lemma login_then_mutate_witness :
  @Query.me
    (@createContext sampleHost sampleVerify
       (Client.authorization (Some "admin.supersecret-key.2h")) 1717236000)
    seed
  = (Ok (Some (UserView.mk "1" "admin" "ADMIN")), seed).
Proof.
  exact (proj1 (@login_then_mutate sampleHost sampleVerify "admin" "admin123"
                  1717232400 1717236000 seed
                  (AuthPayload.mk "admin.supersecret-key.2h"
                     (UserView.mk "1" "admin" "ADMIN"))
                  danInput "2024-06-01T10:00:00.000Z"
                  eq_refl ltac:(discriminate) eq_refl)).
Defined.

(** ** More on filtering *)

Lemma filter_sublist {A} (p : A -> bool) l : sublist (List.filter p l) l.
Proof.
  induction l as [|x l IH]; cbn; [constructor|].
  destruct (p x); now constructor.
Qed.

Lemma filter_swap {A} (p q : A -> bool) l :
  List.filter p (List.filter q l) = List.filter q (List.filter p l).
Proof.
  rewrite !filter_twice. apply List.filter_ext. intros x. apply andb_comm.
Qed.

Lemma filterEmployees_filter `{Host} (filter : option EmployeeFilter.t) :
  exists p, forall l, filterEmployees l filter = List.filter p l.
Proof.
  destruct filter as [f|].
  - exists (passesInForce f). intros l. apply filterEmployees_Some.
  - exists (fun _ => true). intros l. symmetry. apply filter_true.
Qed.

(** X6. Whatever the filter, [filterEmployees] returns records of the list
    it was given, in the order they had there: it drops records, and
    neither adds, repeats nor moves any. *)
Theorem filterEmployees_sublist `{Host} (lst : list Employee.t)
    (filter : option EmployeeFilter.t) :
  sublist (filterEmployees lst filter) lst.
Proof.
  destruct (filterEmployees_filter filter) as [p Hp]. rewrite Hp.
  apply filter_sublist.
Qed.

(** X7. Filters compose: filtering twice by the same spec is filtering
    once, and filtering by one spec then another gives the same list as
    in the other order. *)
Theorem filterEmployees_compose `{Host} (lst : list Employee.t)
    (f g : option EmployeeFilter.t) :
  filterEmployees (filterEmployees lst f) f = filterEmployees lst f
  /\ filterEmployees (filterEmployees lst f) g
     = filterEmployees (filterEmployees lst g) f.
Proof.
  destruct (filterEmployees_filter f) as [p Hp].
  destruct (filterEmployees_filter g) as [q Hq].
  rewrite !Hp, !Hq. split; [|apply filter_swap].
  rewrite filter_twice. apply List.filter_ext. intros x. apply andb_diag.
Qed.

(** X8. The name predicate does not see the case of the query: two
    non-empty queries with the same lower-case form select the same
    records. *)
Theorem filterEmployees_query_case `{Host} (lst : list Employee.t)
    (q1 q2 : string) (className : option string) (minAttendance : option Z) :
  q1 <> "" -> q2 <> "" ->
  toLowerCase q1 = toLowerCase q2 ->
  filterEmployees lst (Some (EmployeeFilter.mk (Some q1) className minAttendance))
  = filterEmployees lst (Some (EmployeeFilter.mk (Some q2) className minAttendance)).
Proof.
  intros H1%String.eqb_neq H2%String.eqb_neq Hq.
  rewrite !filterEmployees_Some. apply List.filter_ext. intros e.
  unfold passesInForce. cbn [EmployeeFilter.nameContains
    EmployeeFilter.className EmployeeFilter.minAttendance].
  now rewrite H1, H2, Hq.
Qed.

Lemma filterEmployees_query_case_witness :
  @filterEmployees sampleHost seed
    (Some (EmployeeFilter.mk (Some "LEE") None (Some 90)))
  = @filterEmployees sampleHost seed
      (Some (EmployeeFilter.mk (Some "lee") None (Some 90))).
Proof.
  apply (@filterEmployees_query_case sampleHost seed "LEE" "lee" None (Some 90));
    [discriminate | discriminate | reflexivity].
Defined.

(** X9. Raising the attendance threshold only drops records: with the
    other predicates unchanged, the records that pass the higher threshold
    are among those that pass the lower one, in the same order, and these
    are among those selected without a threshold. *)
Theorem filterEmployees_threshold_monotone `{Host} (lst : list Employee.t)
    (nameContains className : option string) (m m' : Z) :
  m <= m' ->
  sublist
    (filterEmployees lst (Some (EmployeeFilter.mk nameContains className (Some m'))))
    (filterEmployees lst (Some (EmployeeFilter.mk nameContains className (Some m))))
  /\ sublist
       (filterEmployees lst (Some (EmployeeFilter.mk nameContains className (Some m))))
       (filterEmployees lst (Some (EmployeeFilter.mk nameContains className None))).
Proof.
  intros Hm. rewrite !filterEmployees_Some. split.
  - replace (List.filter (passesInForce (EmployeeFilter.mk _ _ (Some m'))) lst)
      with (List.filter (fun e => Employee.attendance e >=? m')
              (List.filter
                 (passesInForce (EmployeeFilter.mk nameContains className (Some m)))
                 lst)); [apply filter_sublist|].
    rewrite filter_twice. apply List.filter_ext. intros e.
    unfold passesInForce. cbn [EmployeeFilter.nameContains
      EmployeeFilter.className EmployeeFilter.minAttendance].
    destruct (Z.geb_spec (Employee.attendance e) m'),
      (Z.geb_spec (Employee.attendance e) m);
      rewrite ?andb_true_r, ?andb_false_r; try reflexivity; lia.
  - replace (List.filter (passesInForce (EmployeeFilter.mk _ _ (Some m))) lst)
      with (List.filter (fun e => Employee.attendance e >=? m)
              (List.filter
                 (passesInForce (EmployeeFilter.mk nameContains className None))
                 lst)); [apply filter_sublist|].
    rewrite filter_twice. apply List.filter_ext. intros e.
    unfold passesInForce. cbn [EmployeeFilter.nameContains
      EmployeeFilter.className EmployeeFilter.minAttendance].
    now rewrite andb_true_r.
Qed.

Lemma filterEmployees_threshold_monotone_witness :
  sublist
    (@filterEmployees sampleHost seed
       (Some (EmployeeFilter.mk None (Some "Class A") (Some 95))))
    (@filterEmployees sampleHost seed
       (Some (EmployeeFilter.mk None (Some "Class A") (Some 90)))).
Proof.
  apply (@filterEmployees_threshold_monotone sampleHost seed None
           (Some "Class A") 90 95).
  lia.
Defined.

(** ** More on sorting *)

Lemma StronglySorted_filter {A} (R : A -> A -> Prop) (p : A -> bool) l :
  StronglySorted R l -> StronglySorted R (List.filter p l).
Proof.
  induction 1 as [|x l Hl IH Hx]; cbn; [constructor|].
  destruct (p x); [|exact IH]. constructor; [exact IH|].
  apply List.Forall_forall. intros y [Hy _]%filter_In.
  rewrite List.Forall_forall in Hx. now apply Hx.
Qed.

Lemma sort_filter {A} (cmp : A -> A -> Z) (p : A -> bool) l :
  Consistent cmp ->
  JS.sort cmp (List.filter p l) = List.filter p (JS.sort cmp l).
Proof.
  intros Hc. symmetry. apply sort_unique; [exact Hc| |].
  - now apply StronglySorted_filter, sort_sorted.
  - intros a. rewrite filter_swap, sort_stable by exact Hc. apply filter_swap.
Qed.

(** X10. Filtering and sorting commute: the list the [employees] query
    pages through, filtered and then sorted, is the list one gets by
    sorting first and filtering after. *)
Theorem sort_filter_commute `{Host} (lst : list Employee.t)
    (filter : option EmployeeFilter.t) (sort : option EmployeeSort.t) :
  sortEmployees (filterEmployees lst filter) sort
  = filterEmployees (sortEmployees lst sort) filter.
Proof.
  destruct sort as [s|]; [|reflexivity]. cbn [sortEmployees].
  destruct (filterEmployees_filter filter) as [p Hp]. rewrite !Hp.
  apply sort_filter, compareEmployees_consistent.
Qed.

Lemma sortEmployees_char `{Host} lst sort l' :
  StronglySorted (inOrder sort) l' ->
  (forall a,
     List.filter (sameKey (EmployeeSort.field sort) a) l'
     = List.filter (sameKey (EmployeeSort.field sort) a) lst) ->
  l' = sortEmployees lst (Some sort).
Proof.
  intros Hsorted Hstable. cbn [sortEmployees].
  apply sort_unique; [apply compareEmployees_consistent| |].
  - eapply StronglySorted_weaken; [|exact Hsorted].
    intros a b. apply compareEmployees_le.
  - intros a.
    rewrite !(List.filter_ext _ _ (compareEmployees_zero sort a)).
    apply Hstable.
Qed.

(** X11. The contract of C3 determines the result: a list that is ordered
    by the sort spec and holds, for every key, the records of the input
    with that key in their input order is the list [sortEmployees]
    returns. *)
Theorem sortEmployees_unique `{Host} (lst l' : list Employee.t)
    (sort : EmployeeSort.t) :
  StronglySorted (inOrder sort) l' ->
  (forall a,
     List.filter (sameKey (EmployeeSort.field sort) a) l'
     = List.filter (sameKey (EmployeeSort.field sort) a) lst) ->
  l' = sortEmployees lst (Some sort).
Proof. apply sortEmployees_char. Qed.

Lemma sortEmployees_unique_witness :
  [clara; alice; bob]
  = @sortEmployees sampleHost [bob; clara; alice] (Some (EmployeeSort.mk AGE ASC)).
Proof.
  apply (@sortEmployees_unique sampleHost).
  - repeat constructor; discriminate.
  - intros a. unfold sameKey. cbn [keyCompare EmployeeSort.field List.filter].
    cbn [Employee.age alice bob clara].
    destruct (Z.compare_spec (Employee.age a) 26),
      (Z.compare_spec (Employee.age a) 29),
      (Z.compare_spec (Employee.age a) 34); try reflexivity; lia.
Defined.

(** X12. Sorting leaves a list that is already in order as it is; so
    sorting a second time by the same spec changes nothing. *)
Theorem sortEmployees_sorted_input `{Host} (lst : list Employee.t)
    (sort : EmployeeSort.t) :
  (StronglySorted (inOrder sort) lst -> sortEmployees lst (Some sort) = lst)
  /\ sortEmployees (sortEmployees lst (Some sort)) (Some sort)
     = sortEmployees lst (Some sort).
Proof.
  assert (forall l, StronglySorted (inOrder sort) l ->
                    sortEmployees l (Some sort) = l) as Hid.
  { intros l Hl. symmetry. now apply sortEmployees_char. }
  split; [apply Hid|]. apply Hid.
  cbn [sortEmployees]. eapply StronglySorted_weaken;
    [|apply sort_sorted, compareEmployees_consistent].
  intros a b. apply compareEmployees_le.
Qed.

Lemma sortEmployees_sorted_input_witness :
  @sortEmployees sampleHost seed (Some (EmployeeSort.mk CREATED_AT ASC)) = seed.
Proof.
  apply (proj1 (@sortEmployees_sorted_input sampleHost seed
                  (EmployeeSort.mk CREATED_AT ASC))).
  repeat constructor; discriminate.
Defined.

(** ** More on the [employees] query *)

Lemma slice_sublist {A} (l : list A) start end_ : sublist (JS.slice l start end_) l.
Proof.
  unfold JS.slice. etransitivity; [apply sublist_take|apply sublist_drop].
Qed.

Lemma pageItems_slice `{Host} filter sort pageSize store page :
  pageItems filter sort pageSize store page
  = JS.slice (sortEmployees (filterEmployees store filter) sort)
      ((page - 1) * pageSize) ((page - 1) * pageSize + pageSize).
Proof. reflexivity. Qed.

Lemma sortEmployees_perm `{Host} lst sort : sortEmployees lst sort ≡ₚ lst.
Proof. destruct sort as [s|]; [apply sort_perm|reflexivity]. Qed.

(** X13. For every page and pageSize that is an integer, negative ones
    included, or is left out, the [employees] query returns a page and
    leaves the store as it was. Its items are records of the store, none
    more often than the store holds it, and each passes the filter; there
    are at most totalCount of them, and totalCount is at most the size of
    the store. An integer page or pageSize comes back as given, one left
    out as its default, 1 or 10. *)
Theorem employees_items_from_store `{Host} (store : list Employee.t)
    (filter : option EmployeeFilter.t) (sort : option EmployeeSort.t)
    (page pageSize : option Z) :
  exists result,
    Query.employees filter page pageSize sort store = (Ok result, store)
    /\ EmployeePage.items result ⊆+ store
    /\ (forall e f,
          In e (EmployeePage.items result) -> filter = Some f ->
          passesInForce f e = true)
    /\ Z.of_nat (length (EmployeePage.items result))
       <= EmployeePage.totalCount result
       <= Z.of_nat (length store)
    /\ EmployeePage.page result = default 1 page
    /\ EmployeePage.pageSize result = default 10 pageSize.
Proof.
  eexists. split; [reflexivity|]. cbn [EmployeePage.items
    EmployeePage.totalCount EmployeePage.page EmployeePage.pageSize].
  set (sorted := sortEmployees (filterEmployees store filter) sort).
  pose proof (slice_sublist sorted ((default 1 page - 1) * default 10 pageSize)
                ((default 1 page - 1) * default 10 pageSize + default 10 pageSize))
    as Hslice.
  pose proof (sortEmployees_perm (filterEmployees store filter) sort) as Hperm.
  fold sorted in Hperm.
  destruct (filterEmployees_filter filter) as [p Hp].
  pose proof (filter_sublist p store) as Hsub. rewrite <- Hp in Hsub.
  repeat split.
  - etransitivity; [apply sublist_submseteq, Hslice|].
    rewrite Hperm. now apply sublist_submseteq.
  - intros e f Hin ->.
    apply list_elem_of_In in Hin.
    apply (elem_of_sublist _ _ _ Hin) in Hslice as Hin'. clear Hin.
    rename Hin' into Hin.
    rewrite Hperm in Hin. apply list_elem_of_In in Hin.
    rewrite filterEmployees_Some in Hin. now apply filter_In in Hin.
  - apply sublist_length in Hslice. lia.
  - apply Permutation_length in Hperm. apply sublist_length in Hsub. lia.
Qed.

Lemma pages_take `{Host} filter sort ps store (k : nat) :
  0 <= ps ->
  concat (map (fun i : nat => pageItems filter sort ps store (Z.of_nat i + 1))
            (seq 0 k))
  = take (k * Z.to_nat ps) (sortEmployees (filterEmployees store filter) sort).
Proof.
  intros Hps. induction k as [|k IH]; [reflexivity|].
  rewrite seq_S, map_app, concat_app, IH. cbn [map concat plus].
  rewrite app_nil_r, pageItems_slice, slice_window by lia.
  replace (Z.to_nat ((Z.of_nat k + 1 - 1) * ps)) with (k * Z.to_nat ps)%nat by nia.
  rewrite take_take_drop. f_equal. lia.
Qed.

(** X14. Paging through covers the list: for a pageSize >= 0 the items of
    pages 1 to k, one after the other, are the first k * pageSize records
    of the filtered, sorted list; once k * pageSize reaches totalCount
    they are the whole list, each record once and in order. *)
Theorem pages_cover `{Host} (store : list Employee.t)
    (filter : option EmployeeFilter.t) (sort : option EmployeeSort.t)
    (pageSize : Z) (k : nat) :
  0 <= pageSize ->
  concat (map (fun i : nat => pageItems filter sort pageSize store (Z.of_nat i + 1))
            (seq 0 k))
  = take (k * Z.to_nat pageSize)
      (sortEmployees (filterEmployees store filter) sort)
  /\ (Z.of_nat (length (filterEmployees store filter)) <= Z.of_nat k * pageSize ->
      concat (map (fun i : nat =>
                     pageItems filter sort pageSize store (Z.of_nat i + 1))
                (seq 0 k))
      = sortEmployees (filterEmployees store filter) sort).
Proof.
  intros Hps. split; [now apply pages_take|].
  intros Hk. rewrite pages_take by exact Hps. apply take_ge.
  rewrite (Permutation_length (sortEmployees_perm _ sort)). nia.
Qed.

Lemma pages_cover_witness :
  concat (map (fun i : nat =>
                 @pageItems sampleHost None (Some (EmployeeSort.mk NAME DESC)) 2
                   seed (Z.of_nat i + 1))
            (seq 0 2))
  = @sortEmployees sampleHost (@filterEmployees sampleHost seed None)
      (Some (EmployeeSort.mk NAME DESC)).
Proof.
  apply (proj2 (@pages_cover sampleHost seed None
                  (Some (EmployeeSort.mk NAME DESC)) 2 2 ltac:(lia))).
  cbn. lia.
Defined.



(** X16. A negative pageSize is not rejected: on page 1, pageSize [-n]
    returns the whole filtered, sorted list but its last [n] records, so
    more items than any page size would allow. *)
Theorem employees_negative_pageSize `{Host} (store : list Employee.t)
    (filter : option EmployeeFilter.t) (sort : option EmployeeSort.t)
    (n : Z) :
  0 < n ->
  pageItems filter sort (- n) store 1
  = take (length (sortEmployees (filterEmployees store filter) sort)
          - Z.to_nat n)
      (sortEmployees (filterEmployees store filter) sort).
Proof.
  intros Hn. rewrite pageItems_slice. unfold JS.slice.
  set (l := sortEmployees (filterEmployees store filter) sort).
  replace ((1 - 1) * - n) with 0 by lia. cbn [Z.ltb Z.compare].
  destruct (Z.ltb_spec (0 + - n) 0); [|lia].
  rewrite Z.min_l by lia. cbn [Z.to_nat drop]. f_equal. lia.
Qed.

Lemma employees_negative_pageSize_witness :
  @pageItems sampleHost None None (- 1) seed 1 = [alice; bob].
Proof.
  apply (@employees_negative_pageSize sampleHost seed None None 1). lia.
Defined.

(** ** Looking a record up *)

Lemma find_first {A} (p : A -> bool) l (n : nat) x :
  l !! n = Some x -> p x = true ->
  (forall (m : nat) y, (m < n)%nat -> l !! m = Some y -> p y = false) ->
  List.find p l = Some x.
Proof.
  revert n. induction l as [|z l IH]; intros [|n] Hn Hx Hbefore;
    try discriminate; cbn in *.
  - injection Hn as ->. now rewrite Hx.
  - rewrite (Hbefore 0%nat z) by (lia || reflexivity).
    apply (IH n Hn Hx). intros m y Hm Hy. apply (Hbefore (S m) y); [lia|exact Hy].
Qed.

Lemma find_Some_first {A} (p : A -> bool) l x :
  List.find p l = Some x ->
  exists n : nat,
    l !! n = Some x /\ p x = true
    /\ forall (m : nat) y, (m < n)%nat -> l !! m = Some y -> p y = false.
Proof.
  induction l as [|z l IH]; [discriminate|]. cbn [List.find].
  destruct (p z) eqn:Hz.
  - intros [= <-]. exists 0%nat. repeat split; [exact Hz|]. intros m y Hm. lia.
  - intros (n & Hn & Hx & Hbefore)%IH. exists (S n). repeat split; [exact Hn|exact Hx|].
    intros [|m] y Hm Hy; cbn in Hy; [now injection Hy as <-|].
    apply (Hbefore m y); [lia|exact Hy].
Qed.

(** Every outcome of [updateEmployee], whoever calls. *)
Lemma updateEmployee_cases id input context s :
  (exists e, Mutation.updateEmployee id input context s = (Err e, s))
  \/ (exists (idx : nat) old,
        s !! idx = Some old /\ Employee.id old = id
        /\ (forall (m : nat) y, (m < idx)%nat -> s !! m = Some y -> Employee.id y <> id)
        /\ Mutation.updateEmployee id input context s
           = (Ok (Mutation.merge old input),
              <[idx := Mutation.merge old input]> s)).
Proof.
  destruct (Context.user context) as [user|] eqn:Huser;
    [|left; eexists; now rewrite updateEmployee_gate, Huser].
  destruct (String.eqb_spec (UserView.role user) "ADMIN") as [Hrole|Hrole];
    [|apply String.eqb_neq in Hrole; left; eexists;
      now rewrite updateEmployee_gate, Huser, Hrole].
  destruct (updateEmployee_first id input context user s Huser Hrole)
    as [[Hu _]|Hfound]; [left; eexists; exact Hu|now right].
Qed.

(** Every outcome of [addEmployee], whoever calls. *)
Lemma addEmployee_cases input context now s :
  (exists e, Mutation.addEmployee input context now s = (Err e, s))
  \/ (exists r,
        Mutation.addEmployee input context now s = (Ok r, (s ++ [r])%list)
        /\ Employee.id r = ("e" ++ JS.toString (length s + 1))%string
        /\ Employee.createdAt r = now
        /\ Employee.flagged r <> None).
Proof.
  rewrite addEmployee_gate.
  destruct (Context.user context) as [user|]; [|left; now eexists].
  destruct (UserView.role user =? "ADMIN")%string; [|left; now eexists].
  right. eexists. split; [reflexivity|]. cbn [Employee.id Employee.createdAt
    Employee.flagged]. repeat split. now destruct (EmployeeInput.flagged input).
Qed.

(** X17. [employee(id)] never fails and never touches the store. It
    returns nothing exactly when no record has that id, and otherwise the
    first record of the store with that id. *)
Theorem employee_lookup (store : list Employee.t) (id : string) :
  exists r,
    Query.employee id store = (Ok r, store)
    /\ (r = None <-> forall e, In e store -> Employee.id e <> id)
    /\ (forall e,
          r = Some e ->
          Employee.id e = id
          /\ exists i : nat,
               store !! i = Some e
               /\ forall (j : nat) e',
                    (j < i)%nat -> store !! j = Some e' -> Employee.id e' <> id).
Proof.
  eexists. split; [reflexivity|]. unfold JS.find. split.
  - split.
    + intros Hnone e Hin. apply String.eqb_neq.
      exact (List.find_none _ _ Hnone e Hin).
    + intros Hall.
      destruct (List.find _ store) as [e|] eqn:Hfind; [|reflexivity].
      apply List.find_some in Hfind as [Hin Heq%String.eqb_eq].
      now destruct (Hall e Hin).
  - intros e (i & Hi & Hid%String.eqb_eq & Hbefore)%find_Some_first.
    split; [exact Hid|]. exists i. split; [exact Hi|].
    intros j e' Hj He'. apply String.eqb_neq. now apply (Hbefore j e').
Qed.

(** X18. A record that [updateEmployee] returns is the one [employee]
    finds under the same id right after, whatever the store. *)
Theorem update_then_lookup (store store' : list Employee.t) (id : string)
    (input : EmployeeInput.t) (context : Context.t) (r : Employee.t) :
  Mutation.updateEmployee id input context store = (Ok r, store') ->
  Query.employee id store' = (Ok (Some r), store').
Proof.
  intros Hupd.
  destruct (updateEmployee_cases id input context store)
    as [[e He]|(idx & old & Hold & Hid & Hbefore & Hu)];
    [rewrite He in Hupd; discriminate|].
  rewrite Hu in Hupd. injection Hupd as <- <-.
  unfold Query.employee, bind, get, ret, JS.find. do 2 f_equal.
  apply (find_first _ _ idx).
  - apply list_lookup_insert_eq. now apply lookup_lt_Some in Hold.
  - cbn [Mutation.merge Employee.id]. now apply String.eqb_eq.
  - intros m y Hm Hy. rewrite list_lookup_insert_ne in Hy by lia.
    apply String.eqb_neq. now apply (Hbefore m y).
Qed.

Lemma update_then_lookup_witness :
  Query.employee "e2" [alice; bobUpdated; clara]
  = (Ok (Some bobUpdated), [alice; bobUpdated; clara]).
Proof.
  exact (update_then_lookup seed [alice; bobUpdated; clara] "e2" bobInput admin
           bobUpdated eq_refl).
Defined.

Lemma find_app {A} (p : A -> bool) l l' :
  List.find p (l ++ l')
  = match List.find p l with Some x => Some x | None => List.find p l' end.
Proof.
  induction l as [|x l IH]; [reflexivity|]. cbn. now destruct (p x).
Qed.

Lemma find_all_false {A} (p : A -> bool) l :
  (forall x, In x l -> p x = false) -> List.find p l = None.
Proof.
  intros Hall. destruct (List.find p l) as [x|] eqn:Hfind; [|reflexivity].
  apply List.find_some in Hfind as [Hin Hx]. rewrite (Hall x Hin) in Hx.
  discriminate.
Qed.

Lemma find_insert_other {A} (p : A -> bool) l (i : nat) old r :
  l !! i = Some old -> p old = false -> p r = false ->
  List.find p (<[i := r]> l) = List.find p l.
Proof.
  revert i. induction l as [|x l IH]; intros [|i] Hi Hold Hr;
    try discriminate; cbn in *.
  - injection Hi as ->. now rewrite Hold, Hr.
  - destruct (p x); [reflexivity|]. now apply IH.
Qed.

(** X19. On a store built from the seed by mutations, a record that
    [addEmployee] returns is the one [employee] finds under its id right
    after. *)
Theorem add_then_lookup (ops : list Op) (input : EmployeeInput.t)
    (context : Context.t) (now : string) (e : Employee.t)
    (store' : list Employee.t) :
  Mutation.addEmployee input context now (run ops seed) = (Ok e, store') ->
  Query.employee (Employee.id e) store' = (Ok (Some e), store').
Proof.
  intros Hadd.
  pose proof (numbered_fresh _ (numbered_run ops seed numbered_seed)) as Hfresh.
  destruct (addEmployee_cases input context now (run ops seed))
    as [[err He]|(r & Hr & Hid & _)]; rewrite ?He, ?Hr in Hadd;
    [discriminate|].
  injection Hadd as <- <-.
  unfold Query.employee, bind, get, ret, JS.find. do 2 f_equal.
  rewrite find_app, find_all_false.
  - cbn. now rewrite String.eqb_refl.
  - intros x Hin. apply String.eqb_neq. intros Heq. apply Hfresh.
    rewrite <- Hid, <- Heq. now apply in_map.
Qed.

Lemma add_then_lookup_witness :
  Query.employee "e4"
    [alice; bob; clara;
     Employee.mk "e4" "Dan Wu" 41 "Class C" ["Art"] 77 (Some false)
       "2024-06-01T09:00:00.000Z"]
  = (Ok (Some (Employee.mk "e4" "Dan Wu" 41 "Class C" ["Art"] 77 (Some false)
                 "2024-06-01T09:00:00.000Z")),
     [alice; bob; clara;
      Employee.mk "e4" "Dan Wu" 41 "Class C" ["Art"] 77 (Some false)
        "2024-06-01T09:00:00.000Z"]).
Proof.
  exact (add_then_lookup [] danInput admin "2024-06-01T09:00:00.000Z"
           (Employee.mk "e4" "Dan Wu" 41 "Class C" ["Art"] 77 (Some false)
              "2024-06-01T09:00:00.000Z")
           _ eq_refl).
Defined.

(** X20. A mutation leaves the other lookups alone: after a successful
    [addEmployee], [employee] finds under any id but the new one what it
    found before, and after a successful [updateEmployee] under any id but
    the updated one. *)
Theorem mutations_keep_other_lookups (store store' : list Employee.t)
    (input : EmployeeInput.t) (context : Context.t) (r : Employee.t)
    (id' : string) :
  (forall now,
     Mutation.addEmployee input context now store = (Ok r, store') ->
     id' <> Employee.id r ->
     fst (Query.employee id' store') = fst (Query.employee id' store))
  /\ (forall id,
        Mutation.updateEmployee id input context store = (Ok r, store') ->
        id' <> id ->
        fst (Query.employee id' store') = fst (Query.employee id' store)).
Proof.
  unfold Query.employee, bind, get, ret, JS.find. cbn [fst]. split.
  - intros now Hadd Hne.
    destruct (addEmployee_cases input context now store)
      as [[err He]|(r' & Hr & _)]; rewrite ?He, ?Hr in Hadd; [discriminate|].
    injection Hadd as <- <-. f_equal. rewrite find_app. cbn.
    apply String.eqb_neq in Hne. rewrite String.eqb_sym, Hne.
    now destruct (List.find _ store).
  - intros id Hupd Hne.
    destruct (updateEmployee_cases id input context store)
      as [[err He]|(idx & old & Hold & Hid & _ & Hu)]; rewrite ?He, ?Hu in Hupd;
      [discriminate|].
    injection Hupd as <- <-. f_equal.
    apply (find_insert_other _ _ _ old); [exact Hold| |];
      cbn [Mutation.merge Employee.id]; apply String.eqb_neq; congruence.
Qed.

Lemma mutations_keep_other_lookups_witness :
  fst (Query.employee "e3" [alice; bobUpdated; clara])
  = fst (Query.employee "e3" seed).
Proof.
  apply (proj2 (mutations_keep_other_lookups seed [alice; bobUpdated; clara]
                  bobInput admin bobUpdated "e3") "e2");
    [reflexivity|discriminate].
Defined.

(** X21. A mutation that throws has written nothing: when [addEmployee]
    or [updateEmployee] fails, with whatever error, the store is as it was
    before the call. *)
Theorem mutations_atomic (store : list Employee.t) (input : EmployeeInput.t)
    (context : Context.t) (id now : string) (err : Error) :
  (fst (Mutation.addEmployee input context now store) = Err err ->
   snd (Mutation.addEmployee input context now store) = store)
  /\ (fst (Mutation.updateEmployee id input context store) = Err err ->
      snd (Mutation.updateEmployee id input context store) = store).
Proof.
  split.
  - destruct (addEmployee_cases input context now store)
      as [[e He]|(r & Hr & _)]; rewrite ?He, ?Hr; cbn [fst snd];
      [reflexivity|discriminate].
  - destruct (updateEmployee_cases id input context store)
      as [[e He]|(idx & old & _ & _ & _ & Hu)]; rewrite ?He, ?Hu;
      cbn [fst snd]; [reflexivity|discriminate].
Qed.

Lemma mutations_atomic_witness :
  snd (Mutation.addEmployee danInput john "2024-06-01T09:00:00.000Z" seed) = seed
  /\ snd (Mutation.updateEmployee "e99" danInput admin seed) = seed.
Proof.
  split.
  - exact (proj1 (mutations_atomic seed danInput john "e99"
                    "2024-06-01T09:00:00.000Z" Forbidden) eq_refl).
  - exact (proj2 (mutations_atomic seed danInput admin "e99"
                    "2024-06-01T09:00:00.000Z" NotFound) eq_refl).
Defined.

(** ** What the store keeps *)

Lemma step_keeps s op (i : nat) e :
  s !! i = Some e ->
  exists e',
    step s op !! i = Some e'
    /\ Employee.id e' = Employee.id e
    /\ Employee.createdAt e' = Employee.createdAt e.
Proof.
  intros Hi. destruct op as [input context now|id input context]; cbn [step].
  - destruct (addEmployee_cases input context now s)
      as [[err He]|(r & Hr & _)]; rewrite ?He, ?Hr; cbn [snd].
    + now exists e.
    + exists e. split; [|now split]. now apply lookup_app_l_Some.
  - destruct (updateEmployee_cases id input context s)
      as [[err He]|(idx & old & Hold & _ & _ & Hu)]; rewrite ?He, ?Hu;
      cbn [snd].
    + now exists e.
    + destruct (decide (idx = i)) as [->|Hne].
      * exists (Mutation.merge old input).
        rewrite list_lookup_insert_eq by now apply lookup_lt_Some in Hold.
        rewrite Hold in Hi. injection Hi as ->. now repeat split.
      * exists e. rewrite list_lookup_insert_ne by exact Hne. now repeat split.
Qed.

(** X22. No sequence of mutations removes or moves a record, or changes
    its id or its creation timestamp: what is at index [i] of a store
    stays at index [i] with the same id and createdAt, so the store never
    gets shorter. *)
Theorem run_keeps_records (ops : list Op) (store : list Employee.t) :
  (forall (i : nat) e,
     store !! i = Some e ->
     exists e',
       run ops store !! i = Some e'
       /\ Employee.id e' = Employee.id e
       /\ Employee.createdAt e' = Employee.createdAt e)
  /\ (length store <= length (run ops store))%nat.
Proof.
  assert (forall ops s (i : nat) e,
            s !! i = Some e ->
            exists e',
              run ops s !! i = Some e'
              /\ Employee.id e' = Employee.id e
              /\ Employee.createdAt e' = Employee.createdAt e) as Hkeep.
  { clear. induction ops as [|op ops IH]; intros s i e Hi; [now exists e|].
    destruct (step_keeps s op i e Hi) as (e1 & H1 & Hid1 & Hcr1).
    destruct (IH _ _ _ H1) as (e2 & H2 & Hid2 & Hcr2).
    exists e2. cbn [run fold_left]. repeat split; [exact H2|congruence..]. }
  split; [apply Hkeep|].
  destruct (length store) as [|n] eqn:Hlen; [lia|].
  destruct (lookup_lt_is_Some_2 store n) as [e He]; [lia|].
  destruct (Hkeep ops store n e He) as (e' & He' & _).
  apply lookup_lt_Some in He'. lia.
Qed.

Lemma run_keeps_records_witness :
  exists e',
    run [opUpdate "e2" bobInput admin;
         opAdd danInput admin "2024-06-01T09:00:00.000Z"] seed !! 1%nat
    = Some e'
    /\ Employee.id e' = Employee.id bob
    /\ Employee.createdAt e' = Employee.createdAt bob.
Proof.
  exact (proj1 (run_keeps_records
                  [opUpdate "e2" bobInput admin;
                   opAdd danInput admin "2024-06-01T09:00:00.000Z"] seed)
           1%nat bob eq_refl).
Defined.

(** X23. On a store built from the seed by mutations, looking a record
    up by id is looking it up by position: [employee] finds under the id
    [e] followed by [i + 1] the record at index [i], and nothing when the
    store has no such index. *)
Theorem lookup_by_id_is_by_position (ops : list Op) (i : nat) :
  Query.employee ("e" ++ JS.toString (i + 1))%string (run ops seed)
  = (Ok (run ops seed !! i), run ops seed).
Proof.
  pose proof (numbered_run ops seed numbered_seed) as Hnum.
  unfold Query.employee, bind, get, ret, JS.find. do 2 f_equal.
  destruct (run ops seed !! i) as [e|] eqn:Hi.
  - apply (find_first _ _ i); [exact Hi| |].
    + apply String.eqb_eq. now apply Hnum.
    + intros m y Hm Hy. apply String.eqb_neq. rewrite (Hnum m y Hy).
      cbn [String.append]. intros [= E%toString_inj]. lia.
  - apply find_all_false. intros x Hin.
    apply list_elem_of_In, list_elem_of_lookup in Hin as [m Hm].
    pose proof (lookup_lt_Some _ _ _ Hm) as Hlt.
    apply lookup_ge_None in Hi.
    apply String.eqb_neq. rewrite (Hnum m x Hm).
    cbn [String.append]. intros [= E%toString_inj]. lia.
Qed.

(** X24. [flagged] stays a boolean as long as no update passes [null] for
    it: starting from the seed store, after any sequence of mutations of
    which no [updateEmployee] has [flagged: null] in its input, no record
    of the store has a [null] flagged. *)
Theorem flagged_never_null (ops : list Op) :
  List.Forall flagNotNull ops ->
  forall e, In e (run ops seed) -> Employee.flagged e <> None.
Proof.
  intros Hops.
  assert (Forall (fun e => Employee.flagged e <> None) (run ops seed)) as Hall.
  { assert (Forall (fun e => Employee.flagged e <> None) seed) as Hseed
      by (repeat constructor; discriminate).
    revert Hseed. generalize seed as s.
    induction Hops as [|op ops Hop _ IH]; intros s Hs; [exact Hs|].
    cbn [run fold_left]. apply IH.
    destruct op as [input context now|id input context]; cbn [step].
    - destruct (addEmployee_cases input context now s)
        as [[err He]|(r & Hr & _ & _ & Hfl)]; rewrite ?He, ?Hr; cbn [snd];
        [exact Hs|].
      apply Forall_app. split; [exact Hs|]. now constructor.
    - destruct (updateEmployee_cases id input context s)
        as [[err He]|(idx & old & Hold & _ & _ & Hu)]; rewrite ?He, ?Hu;
        cbn [snd]; [exact Hs|].
      apply Forall_insert; [exact Hs|].
      cbn [Mutation.merge Employee.flagged]. cbn [flagNotNull] in Hop.
      destruct (EmployeeInput.flagged input); [|congruence|discriminate].
      eapply Forall_lookup_1 in Hs; [exact Hs|exact Hold]. }
  intros e Hin. rewrite List.Forall_forall in Hall. now apply Hall.
Qed.

Lemma flagged_never_null_witness :
  Employee.flagged
    (Employee.mk "e2" "Dan Wu" 41 "Class C" ["Art"] 77 (Some true)
       "2024-03-01T00:00:00.000Z")
  <> None.
Proof.
  apply (flagged_never_null [opUpdate "e2" danInput admin]).
  - repeat constructor. discriminate.
  - right. left. reflexivity.
Defined.

(** X25. Nothing but the role check stands between an input and the
    store: [addEmployee] by an ADMIN always succeeds. The record it
    returns has the fields of the input, [flagged] false when the input
    omits it or passes [null], the given time as createdAt and the id [e]
    followed by the size of the store plus one; the store is the old one
    with that record at its end. *)
Theorem addEmployee_admin (store : list Employee.t) (input : EmployeeInput.t)
    (context : Context.t) (user : UserView.t) (now : string) :
  Context.user context = Some user ->
  UserView.role user = "ADMIN" ->
  exists e,
    Mutation.addEmployee input context now store = (Ok e, (store ++ [e])%list)
    /\ Employee.id e = ("e" ++ JS.toString (length store + 1))%string
    /\ Employee.name e = EmployeeInput.name input
    /\ Employee.age e = EmployeeInput.age input
    /\ Employee.className e = EmployeeInput.className input
    /\ Employee.subjects e = EmployeeInput.subjects input
    /\ Employee.attendance e = EmployeeInput.attendance input
    /\ Employee.flagged e
       = Some (match EmployeeInput.flagged input with
               | given b => b
               | _ => false
               end)
    /\ Employee.createdAt e = now.
Proof.
  intros Huser Hrole. rewrite addEmployee_gate, Huser, Hrole.
  eexists. split; [reflexivity|]. cbn. repeat split.
  now destruct (EmployeeInput.flagged input).
Qed.

Lemma addEmployee_admin_witness :
  exists e,
    Mutation.addEmployee bobInput admin "2024-06-01T09:00:00.000Z" seed
    = (Ok e, (seed ++ [e])%list)
    /\ Employee.id e = "e4"
    /\ Employee.flagged e = Some false.
Proof.
  destruct (addEmployee_admin seed bobInput admin
              (UserView.mk "1" "admin" "ADMIN") "2024-06-01T09:00:00.000Z"
              eq_refl eq_refl)
    as (e & Hadd & Hid & _ & _ & _ & _ & _ & Hfl & _).
  exists e. repeat split; assumption.
Defined.

(** ** The client's table *)

(** X26. The two labels a row derives from attendance agree: a row is a
    Scholar exactly when its band is Excellent; its band is Needs
    Attention exactly when attendance is below 80, and Good exactly from
    80 to 89. *)
Theorem band_and_roleLabel (emp : Employee.t) :
  (Client.roleLabel emp = "Scholar" <-> Client.band emp = "Excellent")
  /\ (Client.band emp = "Excellent" <-> 90 <= Employee.attendance emp)
  /\ (Client.band emp = "Good" <-> 80 <= Employee.attendance emp < 90)
  /\ (Client.band emp = "Needs Attention" <-> Employee.attendance emp < 80).
Proof.
  unfold Client.roleLabel, Client.band.
  destruct (Z.geb_spec (Employee.attendance emp) 90),
    (Z.geb_spec (Employee.attendance emp) 80);
    repeat split; intros; try discriminate; try reflexivity; lia.
Qed.

(** X27. The primary subject of a row is never blank: it is the first
    subject when there is one and it is not the empty string, and a dash
    otherwise. *)
Theorem primarySubject_never_blank (emp : Employee.t) :
  Client.primarySubject emp <> ""
  /\ (forall subject rest,
        Employee.subjects emp = subject :: rest -> subject <> "" ->
        Client.primarySubject emp = subject)
  /\ (Employee.subjects emp = [] -> Client.primarySubject emp = "-").
Proof.
  unfold Client.primarySubject, JS.truthy. repeat split.
  - destruct (Employee.subjects emp) as [|subject rest]; [discriminate|].
    destruct (String.eqb_spec subject ""); cbn [negb]; [discriminate|assumption].
  - intros subject rest -> Hne%String.eqb_neq. now rewrite Hne.
  - now intros ->.
Qed.

Lemma primarySubject_never_blank_witness :
  Client.primarySubject alice = "Math"
  /\ Client.primarySubject
       (Employee.mk "e9" "No Subjects" 30 "Class Z" [] 50 (Some false)
          "2024-01-01T00:00:00.000Z")
     = "-".
Proof.
  split.
  - apply (proj1 (proj2 (primarySubject_never_blank alice)) "Math" ["Science"]);
      [reflexivity|discriminate].
  - apply (proj2 (proj2 (primarySubject_never_blank _))). reflexivity.
Defined.

Lemma employees_items_from_store_witness :
  exists result,
    @Query.employees sampleHost
      (Some (EmployeeFilter.mk (Some "a") None (Some 90))) (Some (-3)) (Some 7)
      (Some (EmployeeSort.mk AGE DESC)) seed
    = (Ok result, seed)
    /\ EmployeePage.items result ⊆+ seed.
Proof.
  destruct (@employees_items_from_store sampleHost seed
              (Some (EmployeeFilter.mk (Some "a") None (Some 90)))
              (Some (EmployeeSort.mk AGE DESC)) (Some (-3)) (Some 7))
    as (result & Hq & Hsub & _).
  exists result. split; assumption.
Defined.

Lemma employee_lookup_witness :
  exists r,
    Query.employee "e2" seed = (Ok r, seed)
    /\ (r = None <-> forall e, In e seed -> Employee.id e <> "e2").
Proof.
  destruct (employee_lookup seed "e2") as (r & Hq & Hnone & _).
  exists r. split; assumption.
Defined.
